(** * Verification of the image optimizer (imagen_optimized.py)

    A shallow embedding of [ImageOptimizer] and [main] and the properties
    the specification states about them.

    The program is Python: integers are unbounded ([Z]), strings are
    [string], the [stats] dictionary has five fixed keys and is a record.
    The methods mutate the optimizer's counters, the file system and the
    standard output, and an exception leaves the mutations made so far in
    place: statements are functions from a [world] to a result and a world,
    with [try]/[except] written out.

    What the program calls and does not define is modelled by what it
    documents: pathlib paths are lists of parts, the file system is a finite
    map from paths to bytes with a set of directories, and Pillow is a class
    of operations ([Pillow]) over which the development is parametric.
    Sizes and percentages are kept as exact numbers; their rounding to one
    decimal in the text of the report ([:.1f], [:+.1f]) is not modelled. *)

From Stdlib Require Import ZArith QArith Qround Qabs Ascii List Lia.
From stdpp Require Import base option list strings gmap.

Local Open Scope Z_scope.

(** ** Strings and paths (pathlib.PurePath) *)

Module Str.

(** [str.lower()] on the ASCII range. *)
Definition lower_ascii (c : ascii) : ascii :=
  let n := nat_of_ascii c in
  if ((65 <=? n)%nat && (n <=? 90)%nat)%bool then ascii_of_nat (n + 32) else c.

Fixpoint lower (s : string) : string :=
  match s with
  | EmptyString => EmptyString
  | String c s' => String (lower_ascii c) (lower s')
  end.

(** [s.rfind('.')], as the two slices [(s[:i], s[i:])]; [None] is -1. *)
Fixpoint rsplit_dot (s : string) : option (string * string) :=
  match s with
  | EmptyString => None
  | String c s' =>
      match rsplit_dot s' with
      | Some (a, b) => Some (String c a, b)
      | None => if Ascii.eqb c "." then Some (EmptyString, s) else None
      end
  end.

(** [s.split('/')]. *)
Fixpoint split_slash (s : string) : list string :=
  match s with
  | EmptyString => [EmptyString]
  | String c s' =>
      if Ascii.eqb c "/" then EmptyString :: split_slash s'
      else match split_slash s' with
           | w :: ws => String c w :: ws
           | [] => [String c EmptyString]
           end
  end.

Definition is_empty (s : string) : bool :=
  match s with EmptyString => true | _ => false end.

End Str.

(** A path is the list of its parts, as [PurePath.parts]; an absolute path
    starts with the part "/". *)
Abbreviation path := (list string).

Module PurePath.

(** [Path(s)]: empty parts and "." parts are dropped. *)
Definition Path (s : string) : path :=
  let parts :=
    filter (λ c, c ≠ EmptyString ∧ c ≠ ".") (Str.split_slash s) in
  match s with
  | String "/" _ => "/" :: parts
  | _ => parts
  end.

(** [p.name]: the last part, empty for a path with no part or the root. *)
Definition name (p : path) : string :=
  match last p with
  | Some n => if String.eqb n "/" then EmptyString else n
  | None => EmptyString
  end.

(** [PurePath.suffix] of a name:
      i = name.rfind('.'); name[i:] if 0 < i < len(name) - 1 else ''   *)
Definition split_name (n : string) : string * string :=
  match Str.rsplit_dot n with
  | Some (a, b) =>
      if (negb (Str.is_empty a) && (1 <? String.length b)%nat)%bool
      then (a, b) else (n, EmptyString)
  | None => (n, EmptyString)
  end.

Definition stem (p : path) : string := fst (split_name (name p)).
Definition suffix (p : path) : string := snd (split_name (name p)).

(** [p.parent] on a path with a name. *)
Definition parent (p : path) : path := removelast p.

(** [p.with_suffix(s)]; [None] is the ValueError of a path with no name.
    The suffixes the program passes are ".jpg" and ".backup" + p.suffix,
    which pathlib accepts. *)
Definition with_suffix (p : path) (s : string) : option path :=
  if Str.is_empty (name p) then None
  else Some (parent p ++ [stem p +:+ s]).

(** [p.relative_to(d)]; [None] is the ValueError when [d] is no prefix of
    [p], or is relative while [p] is absolute. *)
Fixpoint strip_prefix (p d : path) : option path :=
  match d, p with
  | [], _ => Some p
  | x :: d', y :: p' => if String.eqb x y then strip_prefix p' d' else None
  | _ :: _, [] => None
  end.

Definition relative_to (p d : path) : option path :=
  match d, p with
  | [], "/" :: _ => None
  | _, _ => strip_prefix p d
  end.

(** [d / r] for a relative [r]. *)
Definition joinpath (d r : path) : path := d ++ r.

End PurePath.

(** ** Data model *)

(** The bytes of a file. *)
Abbreviation content := (list Byte.byte).

(** [self.stats]: a dict with five fixed keys. *)
Record Stats := mkStats {
  processed : Z;
  skipped : Z;
  errors : Z;
  original_size : Z;
  optimized_size : Z
}.

Definition stats_init : Stats := mkStats 0 0 0 0 0.

(** The constructor arguments kept on [self]. *)
Record Config := mkConfig {
  quality : Z;
  max_width : Z;
  max_height : Z;
  progressive : bool
}.

(** The exceptions ([Exception] subclasses) the modelled statements raise. *)
Inductive exn :=
  | FileNotFoundError
  | FileExistsError
  | NotADirectoryError
  | IsADirectoryError
  | ValueError
  | ZeroDivisionError
  | UnidentifiedImageError
  | EncoderError.

(** What [print] writes, one entry per message.  Numbers are kept as
    numbers; the percentage of a report line is the exact rational that the
    program formats with [:+.1f]. *)
Inductive line :=
  | LineOk (name : string) (original optimized : Z) (reduction : Q)
  | LineError (name : string) (e : exn)
  | LineNoDirectory (directory_path : string)
  | LineNoImages
  | LineFound (n : nat)
  | LineRule
  | LineSummary (s : Stats) (saved : option (Z * Q))
  | LineQualityRange
  | LineConfiguration (directory : string) (recursive : bool) (c : Config)
      (backup : bool) (output : option string)
  | LineCompleted
  | LineNotCompleted
  | LineUnexpected (e : exn).

(** The sign character that the format [+.1f] puts before a number. *)
Definition sign_shown (r : Q) : ascii :=
  if Qle_bool 0 r then "+"%char else "-"%char.

(** The mutable state a run acts on: regular files with their bytes, the
    directories, the optimizer's counters and the standard output.  Paths are
    compared by their parts, as pathlib does; a world lists the working
    directory (the path with no part) in [dirs] like any other directory.
    A file is known by the parts of its path: two spellings of one file (a
    path through "..", a relative and an absolute path, a link) are two keys
    here, so a property that compares paths of two roots asks for roots
    spelled without ".." and both relative or both absolute. *)
Record world := mkWorld {
  files : gmap path content;
  dirs : gset path;
  self_stats : Stats;
  stdout : list line
}.

Definition set_files (f : gmap path content → gmap path content) (w : world) : world :=
  mkWorld (f (files w)) (dirs w) (self_stats w) (stdout w).
Definition set_dirs (f : gset path → gset path) (w : world) : world :=
  mkWorld (files w) (f (dirs w)) (self_stats w) (stdout w).
Definition set_stats (f : Stats → Stats) (w : world) : world :=
  mkWorld (files w) (dirs w) (f (self_stats w)) (stdout w).
Definition put_line (l : line) (w : world) : world :=
  mkWorld (files w) (dirs w) (self_stats w) (stdout w ++ [l]).

(** ** Statements: state that survives a raised exception *)

Inductive result (A : Type) :=
  | Return (a : A)
  | Raise (e : exn).
Arguments Return {A} a.
Arguments Raise {A} e.

Definition M (A : Type) : Type := world → result A * world.

Global Instance M_ret : MRet M := λ A a w, (Return a, w).
Global Instance M_bind : MBind M := λ A B f m w,
  match m w with
  | (Return a, w') => f a w'
  | (Raise e, w') => (Raise e, w')
  end.

Definition raise {A} (e : exn) : M A := λ w, (Raise e, w).
Definition get_world : M world := λ w, (Return w, w).
Definition modify (f : world → world) : M unit := λ w, (Return tt, f w).
(** [print(...)]: writing to the standard output is taken to succeed. *)
Definition print (l : line) : M unit := modify (put_line l).

(** [try: body except Exception as e: handler(e)]. *)
Definition try_except {A} (body : M A) (handler : exn → M A) : M A := λ w,
  match body w with
  | (Return a, w') => (Return a, w')
  | (Raise e, w') => handler e w'
  end.

(** The outcome of a statement as a value: the statement itself never raises. *)
Definition catch {A} (body : M A) : M (exn + A) := λ w,
  match body w with
  | (Return a, w') => (Return (inr a), w')
  | (Raise e, w') => (Return (inl e), w')
  end.

(** [for x in xs: body(x)]. *)
Fixpoint for_each {A} (xs : list A) (body : A → M unit) : M unit :=
  match xs with
  | [] => mret tt
  | x :: xs' => body x ;; for_each xs' body
  end.

(** ** File system calls *)

(** [os.path.getsize(p)] where [p] is a regular file or nothing: the size
    of a directory is not modelled, and the properties that call it on a path
    which is not known to be a regular file ask that it is no directory. *)
Definition getsize (p : path) : M Z :=
  w ← get_world;
  match files w !! p with
  | Some c => mret (Z.of_nat (length c))
  | None => raise FileNotFoundError
  end.

(** [p.exists()] and [p.is_file()]. *)
Definition is_file (w : world) (p : path) : bool :=
  bool_decide (is_Some (files w !! p)).
Definition path_exists (w : world) (p : path) : bool :=
  is_file w p || bool_decide (p ∈ dirs w).

(** [os.rename(src, dst)] where [src] is a regular file or nothing; the
    move of a directory is not modelled (see [getsize]). *)
Definition os_rename (src dst : path) : M unit :=
  w ← get_world;
  match files w !! src with
  | Some c => modify (set_files (λ fs, <[dst := c]> (delete src fs)))
  | None => raise FileNotFoundError
  end.

(** [p.mkdir(parents=True, exist_ok=True)]: every non-empty prefix of [p]
    becomes a directory.  A regular file in the way raises: the operating
    system answers [ENOTDIR] ([NotADirectoryError]) when a component before
    the last is a regular file, and [EEXIST] ([FileExistsError], which
    [exist_ok] lets through for a directory only) when [p] itself is one. *)
Definition prefixes (p : path) : list path :=
  map (λ n, take n p) (seq 1 (length p)).

Definition mkdir_parents (p : path) : M unit :=
  w ← get_world;
  if existsb (is_file w) (removelast (prefixes p)) then raise NotADirectoryError
  else if is_file w p then raise FileExistsError
  else modify (set_dirs (λ ds, ds ∪ list_to_set (prefixes p))).


(** ** Pillow, the image library the program calls *)

Record image (Pix : Type) := mkImage {
  width : Z;
  height : Z;
  mode : string;
  pix : Pix
}.
Arguments mkImage {Pix} _ _ _ _.
Arguments width {Pix} _.
Arguments height {Pix} _.
Arguments mode {Pix} _.
Arguments pix {Pix} _.

(** The keyword arguments of [img.save]. *)
Record save_kwargs := mkKwargs {
  kw_optimize : bool;
  kw_quality : option Z;
  kw_progressive : option bool;
  kw_method : option Z;
  kw_format : string
}.

(** What an encoder does with the opened destination: the whole file, or an
    exception after it has written some bytes. *)
Inductive save_result :=
  | Encoded (c : content)
  | EncodeFailed (partial : content).

(** The operations of Pillow that the program uses.  [Image_open] is
    [Image.open] with the decoding it triggers ([None]: it raises);
    [img_paste size img mask] is the white RGB canvas of [Image.new] after
    [paste]; [img_resample] is the LANCZOS resampling to a size. *)
Class Pillow := {
  Pix : Type;
  Image_open : content → option (image Pix);
  img_convert : string → image Pix → image Pix;
  img_paste : Z * Z → image Pix → bool → Pix;
  img_resample : image Pix → Z * Z → Pix;
  exif_transpose : image Pix → image Pix;
  img_encode : save_kwargs → image Pix → save_result
}.

(** A small instance, used to run the model on concrete files: the first
    byte of a file is the width and the height of its image, its second byte
    picks the mode; a file that starts with the byte 0 does not decode; an
    image encodes to one byte, and a PNG encoder fails on 255x255. *)
Definition toy_open (c : content) : option (image unit) :=
  match c with
  | [] => None
  | b :: rest =>
      let n := Z.of_N (Byte.to_N b) in
      if n =? 0 then None
      else Some (mkImage n n (match rest with
                               | Byte.x01 :: _ => "RGBA"
                               | _ => "RGB"
                               end) tt)
  end.

Definition toy_encode (kw : save_kwargs) (img : image unit) : save_result :=
  if (String.eqb (kw_format kw) "PNG" && (width img =? 255))%bool
  then EncodeFailed []
  else Encoded [Byte.x07].

Definition toy_pillow : Pillow := {|
  Pix := unit;
  Image_open := toy_open;
  img_convert := λ m img, mkImage (width img) (height img) m tt;
  img_paste := λ _ _ _, tt;
  img_resample := λ _ _, tt;
  exif_transpose := λ img, img;
  img_encode := toy_encode
|}.

(** The output formats of [get_output_format]. *)
Inductive EncodeFormat := JPEG | PNG | WEBP.

Global Instance EncodeFormat_eq_dec : EqDecision EncodeFormat.
Proof. solve_decision. Defined.

(** ** Command line ([argparse] namespace) *)

Record Args := mkArgs {
  arg_directory : string;
  arg_recursive : bool;
  arg_quality : Z;
  arg_max_width : Z;
  arg_max_height : Z;
  arg_max_size : option Z;
  arg_backup : bool;
  arg_output : option string;
  arg_no_progressive : bool
}.

(** The namespace when no option is given. *)
Definition default_args : Args :=
  mkArgs "." false 85 1920 1080 None false None false.

(** Truth value of an optional integer and of an optional string, as
    [if x:] tests them. *)
Definition truthy_int (x : option Z) : bool :=
  match x with Some v => negb (v =? 0) | None => false end.
Definition truthy_str (x : option string) : bool :=
  match x with Some s => negb (Str.is_empty s) | None => false end.

Section Optimizer.

Context {P : Pillow}.

Abbreviation img := (image Pix).

(** *** Image.thumbnail *)

(** Modelled from the spec: the rounding of [Image.thumbnail], which is not
    in the repository:
    [max(min(floor(number), ceil(number), key=key), 1)], where [min] keeps
    the first of two candidates with equal keys. *)
Definition round_aspect (number : Q) (key : Z → Q) : Z :=
  let lo := Qfloor number in
  let hi := Qceiling number in
  Z.max (if Qle_bool (key lo) (key hi) then lo else hi) 1.

(** Modelled from the spec: [Image.thumbnail] belongs to Pillow and is not in
    the repository.  The spec asks for an aspect-preserving fit within the
    box that scales both dimensions by the same factor and leaves an image
    that fits untouched.  The size below is the one Pillow's rule gives, in
    exact rational arithmetic: the side that the box constrains becomes the
    side of the box, the other one is the scaled value rounded down or up,
    whichever keeps the ratio closer, and is at least 1.  The divisions raise
    on a zero divisor. *)
Definition thumbnail_size (W H : Z) (size : Z * Z) : result (Z * Z) :=
  let '(x, y) := size in
  if ((W <=? x) && (H <=? y))%bool then Return (W, H)
  else if ((H =? 0) || (y =? 0) || (W =? 0))%bool then Raise ZeroDivisionError
  else
    let aspect := (inject_Z W / inject_Z H)%Q in
    if Qle_bool aspect (inject_Z x / inject_Z y)
    then Return (round_aspect (inject_Z y * aspect)
                   (λ n, Qabs (aspect - inject_Z n / inject_Z y)), y)
    else Return (x, round_aspect (inject_Z x / aspect)
                   (λ n, if n =? 0 then 0%Q
                         else Qabs (aspect - inject_Z x / inject_Z n))).

(** Modelled from the spec: [img.thumbnail(size, LANCZOS)], not in the
    repository; it resamples to [thumbnail_size] unless that is the size the
    image already has, and resampling to an empty size raises. *)
Definition thumbnail (i : img) (size : Z * Z) : M img :=
  match thumbnail_size (width i) (height i) size with
  | Raise e => raise e
  | Return (x, y) =>
      if ((x =? width i) && (y =? height i))%bool then mret i
      else if ((x <=? 0) || (y <=? 0))%bool then raise ValueError
      else mret (mkImage x y (mode i) (img_resample i (x, y)))
  end.

(** *** ImageOptimizer *)

Definition supported_formats : list string :=
  [".jpg"; ".jpeg"; ".png"; ".webp"; ".bmp"; ".tiff"].

Definition is_image_file (filepath : path) : bool :=
  bool_decide (Str.lower (PurePath.suffix filepath) ∈ supported_formats).

Definition get_output_format (input_path : path) : EncodeFormat :=
  let ext := Str.lower (PurePath.suffix input_path) in
  if bool_decide (ext ∈ [".jpg"; ".jpeg"; ".bmp"; ".tiff"]) then JPEG
  else if String.eqb ext ".png" then PNG
  else if String.eqb ext ".webp" then WEBP
  else JPEG.

(** Lines 51-56: the backup of an in-place run; the result is the path the
    image is then read from. *)
Definition backup_path (input_path : path) : option path :=
  PurePath.with_suffix input_path (".backup" +:+ PurePath.suffix input_path).

Definition backup_step (input_path output_path : path) (backup : bool) : M path :=
  if (backup && bool_decide (output_path = input_path))%bool then
    match backup_path input_path with
    | None => raise ValueError
    | Some bp =>
        w ← get_world;
        if negb (path_exists w bp)
        then os_rename input_path bp ;; mret bp
        else mret input_path
    end
  else mret input_path.

(** [Image.open(input_path)] and the loading of the pixels. *)
Definition open_image (input_path : path) : M img :=
  w ← get_world;
  match files w !! input_path with
  | None => raise FileNotFoundError
  | Some c =>
      match Image_open c with
      | Some i => mret i
      | None => raise UnidentifiedImageError
      end
  end.

(** Lines 66-72: an image with transparency becomes an RGB image of the same
    size on a white background. *)
Definition flatten_on_white (i : img) : img :=
  let size := (width i, height i) in
  let i1 := if String.eqb (mode i) "P" then img_convert "RGBA" i else i in
  mkImage (fst size) (snd size) "RGB"
    (img_paste size i1 (String.eqb (mode i1) "RGBA")).

(** Lines 75-76. *)
Definition resize_step (self : Config) (i : img) : M img :=
  if ((max_width self <? width i) || (max_height self <? height i))%bool
  then thumbnail i (max_width self, max_height self)
  else mret i.

(** Lines 82-105: the keyword arguments and the final output path. *)
Definition save_settings (self : Config) (output_format : EncodeFormat)
    (output_path : path) : M (save_kwargs * path) :=
  match output_format with
  | JPEG =>
      let kw := mkKwargs true (Some (quality self)) (Some (progressive self))
                  None "JPEG" in
      if bool_decide (Str.lower (PurePath.suffix output_path) ∈ [".jpg"; ".jpeg"])
      then mret (kw, output_path)
      else match PurePath.with_suffix output_path ".jpg" with
           | Some p => mret (kw, p)
           | None => raise ValueError
           end
  | PNG => mret (mkKwargs true None None None "PNG", output_path)
  | WEBP => mret (mkKwargs true (Some (quality self)) None (Some 6) "WEBP",
                  output_path)
  end.

(** The path that [save_settings] hands to [img.save] for an image read
    from [input_path]. *)
Definition save_target (input_path output_path : path) : option path :=
  match get_output_format input_path with
  | JPEG =>
      if bool_decide (Str.lower (PurePath.suffix output_path) ∈ [".jpg"; ".jpeg"])
      then Some output_path
      else PurePath.with_suffix output_path ".jpg"
  | _ => Some output_path
  end.



(** [img.save(output_path, **save_kwargs)]: the destination is opened for
    writing, which raises on a directory; when the encoder raises, Pillow
    removes the file if the call created it, and otherwise the bytes written
    so far stay. *)
Definition img_save (i : img) (output_path : path) (kw : save_kwargs) : M unit :=
  w ← get_world;
  if bool_decide (output_path ∈ dirs w) then raise IsADirectoryError
  else match img_encode kw i with
       | Encoded c => modify (set_files (λ fs, <[output_path := c]> fs))
       | EncodeFailed partial =>
           (if is_file w output_path
            then modify (set_files (λ fs, <[output_path := partial]> fs))
            else mret tt) ;;
           raise EncoderError
       end.

(** [((original_size - optimized_size) / original_size) * 100]; the
    division of two integers raises on a zero divisor. *)
Definition reduction_value (original optimized : Z) : Q :=
  ((inject_Z (original - optimized) / inject_Z original) * 100)%Q.

Definition reduction_percent (original optimized : Z) : M Q :=
  if original =? 0 then raise ZeroDivisionError
  else mret (reduction_value original optimized).

Definition add_original (n : Z) (s : Stats) : Stats :=
  mkStats (processed s) (skipped s) (errors s) (original_size s + n) (optimized_size s).
Definition add_optimized (n : Z) (s : Stats) : Stats :=
  mkStats (processed s) (skipped s) (errors s) (original_size s) (optimized_size s + n).
Definition incr_processed (s : Stats) : Stats :=
  mkStats (processed s + 1) (skipped s) (errors s) (original_size s) (optimized_size s).
Definition incr_errors (s : Stats) : Stats :=
  mkStats (processed s) (skipped s) (errors s + 1) (original_size s) (optimized_size s).
Definition incr_skipped (s : Stats) : Stats :=
  mkStats (processed s) (skipped s + 1) (errors s) (original_size s) (optimized_size s).

(** Lines 58-119, the [try] body after the backup. *)
Definition optimize_body (self : Config) (input_path output_path : path) : M bool :=
  original ← getsize input_path;
  modify (set_stats (add_original original)) ;;
  i ← open_image input_path;
  let output_format := get_output_format input_path in
  let i := if (bool_decide (output_format = JPEG)
               && bool_decide (mode i ∈ ["RGBA"; "LA"; "P"]))%bool
           then flatten_on_white i else i in
  i ← resize_step self i;
  let i := exif_transpose i in
  '(kw, output_path) ← save_settings self output_format output_path;
  img_save i output_path kw ;;
  optimized ← getsize output_path;
  modify (set_stats (add_optimized optimized)) ;;
  modify (set_stats incr_processed) ;;
  reduction ← reduction_percent original optimized;
  print (LineOk (PurePath.name input_path) original optimized reduction) ;;
  mret true.

(** Lines 121-124. *)
Definition except_handler (input_path : path) (e : exn) : M bool :=
  print (LineError (PurePath.name input_path) e) ;;
  modify (set_stats incr_errors) ;;
  mret false.

(** [optimize_image]: the handler reports the name [input_path] has when the
    exception is raised, the backup's once the rename is done. *)
Definition optimize_image (self : Config) (input_path : path)
    (output_path : option path) (backup : bool) : M bool :=
  let output_path := default input_path output_path in
  r ← catch (backup_step input_path output_path backup);
  match r with
  | inl e => except_handler input_path e
  | inr input_path =>
      try_except (optimize_body self input_path output_path)
                 (except_handler input_path)
  end.

(** [directory.glob("**/*" if recursive else "*")]: the files and
    directories below [directory], at any depth or at depth one.  The order
    is the one of the underlying listing and plays no role below. *)
Definition below (directory : path) (recursive : bool) (p : path) : bool :=
  match PurePath.relative_to p directory with
  | Some (_ :: rest) => recursive || bool_decide (rest = [])
  | _ => false
  end.

Definition glob (directory : path) (recursive : bool) (w : world) : list path :=
  filter (λ p, below directory recursive p = true)
         (map fst (map_to_list (files w)) ++ elements (dirs w)).

(** Lines 149-150. *)
Definition image_files_of (directory : path) (recursive : bool) (w : world)
    : list path :=
  filter (λ f, (is_file w f && is_image_file f)%bool = true)
         (glob directory recursive w).

(** Lines 178-191. *)
Definition print_summary : M unit :=
  w ← get_world;
  let s := self_stats w in
  print (LineSummary s
    (if 0 <? original_size s
     then Some (original_size s - optimized_size s,
                (inject_Z (original_size s - optimized_size s)
                 / inject_Z (original_size s) * 100)%Q)
     else None)).

(** Lines 160-172, one turn of the loop. *)
Definition process_file (self : Config) (directory : path) (backup : bool)
    (output_directory : option path) (image_file : path) : M unit :=
  output_path ←
    match output_directory with
    | Some od =>
        match PurePath.relative_to image_file directory with
        | None => raise ValueError
        | Some relative_path =>
            let output_path := PurePath.joinpath od relative_path in
            mkdir_parents (PurePath.parent output_path) ;;
            mret (Some output_path)
        end
    | None => mret None
    end;
  success ← optimize_image self image_file output_path backup;
  if negb success then modify (set_stats incr_skipped) else mret tt.

(** [optimize_directory]. *)
Definition optimize_directory (self : Config) (directory_path : string)
    (recursive backup : bool) (output_dir : option string) : M bool :=
  let directory := PurePath.Path directory_path in
  w ← get_world;
  if negb (path_exists w directory)
  then print (LineNoDirectory directory_path) ;; mret false
  else
    output_directory ←
      (if truthy_str output_dir
       then let od := PurePath.Path (default EmptyString output_dir) in
            mkdir_parents od ;; mret (Some od)
       else mret None);
    w ← get_world;
    let image_files := image_files_of directory recursive w in
    match image_files with
    | [] => print LineNoImages ;; mret false
    | _ =>
        print (LineFound (length image_files)) ;;
        print LineRule ;;
        for_each image_files
          (process_file self directory backup output_directory) ;;
        print_summary ;;
        mret true
    end.

(** Lines 126-132, [format_size]: the number to show and its unit.  The loop
    compares with 1024.0 and divides by it, and [:.1f] formats a float.  An
    integer of magnitude up to 2^53 is its own float, and dividing such a
    number, 1024 or more, by a power of two is exact: on these the floats of
    the loop are the exact rationals below.  A larger integer is rounded when
    it becomes a float, or overflows; the result is then [None], such sizes
    being outside this model.  The rounding to one decimal by [:.1f] is not
    modelled. *)
Definition float_is_exact (n : Z) : bool := Z.abs n <=? 2 ^ 53.

Fixpoint format_size_loop (units : list string) (size_bytes : Q) : Q * string :=
  match units with
  | [] => (size_bytes, "TB")
  | unit :: units' =>
      if negb (Qle_bool 1024 size_bytes) then (size_bytes, unit)
      else format_size_loop units' (size_bytes / 1024)%Q
  end.

Definition format_size (size_bytes : Z) : option (Q * string) :=
  if float_is_exact size_bytes
  then Some (format_size_loop ["B"; "KB"; "MB"; "GB"] (inject_Z size_bytes))
  else None.

(** Lines 65-72: the image that goes into the resize step. *)
Definition prepare_image (output_format : EncodeFormat) (i : img) : img :=
  if (bool_decide (output_format = JPEG)
      && bool_decide (mode i ∈ ["RGBA"; "LA"; "P"]))%bool
  then flatten_on_white i else i.

(** The path that a call of [optimize_image] reads: the value of
    [input_path] after lines 51-56. *)
Definition read_path (input_path : path) (output_path : option path)
    (backup : bool) (w : world) : path :=
  match fst (backup_step input_path (default input_path output_path) backup w)
  with
  | Return p => p
  | Raise _ => input_path
  end.

(** A line that reports the file named [n]: a result line or an error
    line. *)
Definition line_of_file (n : string) (ok : bool) (l : line) : Prop :=
  if ok then ∃ o q d, l = LineOk n o q d else ∃ e, l = LineError n e.

(** A line that reports the candidate [f]: it names [f], or its backup when
    the call has just renamed [f] to it. *)
Definition names_file (f : path) (l : line) : Prop :=
  ∃ ok, line_of_file (PurePath.name f) ok l
        ∨ ∃ bk, backup_path f = Some bk ∧ line_of_file (PurePath.name bk) ok l.

(** *** Outcomes, for the statements of the properties *)

(** The world once the size of a file with bytes [c] is added to the total,
    and once the optimized bytes [c'] are written to [out] and counted. *)
Definition world_after_read (c : content) (w : world) : world :=
  set_stats (add_original (Z.of_nat (length c))) w.

Definition world_after_save (c : content) (out : path) (c' : content)
    (w : world) : world :=
  set_stats incr_processed
    (set_stats (add_optimized (Z.of_nat (length c')))
       (set_files (λ fs, <[out := c']> fs) (world_after_read c w))).

Inductive body_outcome (ip op : path) (w : world) : result bool → world → Prop :=
  | BodyNoFile :
      files w !! ip = None →
      body_outcome ip op w (Raise FileNotFoundError) w
  | BodyFailed e c :
      files w !! ip = Some c →
      body_outcome ip op w (Raise e) (world_after_read c w)
  | BodyEncodeFailed c out partial :
      files w !! ip = Some c →
      save_target ip op = Some out →
      is_file w out = true →
      body_outcome ip op w (Raise EncoderError)
        (set_files (λ fs, <[out := partial]> fs) (world_after_read c w))
  | BodySaved c i out c' :
      files w !! ip = Some c →
      Image_open c = Some i →
      save_target ip op = Some out →
      length c ≠ 0%nat →
      body_outcome ip op w (Return true)
        (put_line
           (LineOk (PurePath.name ip) (Z.of_nat (length c)) (Z.of_nat (length c'))
              (reduction_value (Z.of_nat (length c)) (Z.of_nat (length c'))))
           (world_after_save c out c' w))
  | BodyEmptyDecoded i out c' :
      files w !! ip = Some [] →
      Image_open [] = Some i →
      save_target ip op = Some out →
      body_outcome ip op w (Raise ZeroDivisionError) (world_after_save [] out c' w).

(** The counters of two states: [n] more files are counted as processed or
    as errors; skipped and errors have moved together. *)
Definition counted (n : Z) (s s' : Stats) : Prop :=
  processed s' + errors s' = processed s + errors s + n.

Definition balanced (s s' : Stats) : Prop :=
  skipped s' - errors s' = skipped s - errors s.

(** Lines 149-176 of [optimize_directory], from the listing on. *)
Definition run_loop (self : Config) (directory : path) (recursive backup : bool)
    (output_directory : option path) (w : world) : result bool * world :=
  match image_files_of directory recursive w with
  | [] => (Return false, put_line LineNoImages w)
  | fs =>
      match for_each fs (process_file self directory backup output_directory)
              (put_line LineRule (put_line (LineFound (length fs)) w)) with
      | (Return _, w2) => (Return true, snd (print_summary w2))
      | (Raise e, w2) => (Raise e, w2)
      end
  end.

(** The candidates of a run: the value of [image_files] at line 149, once
    the output directory has been created; no candidate when the directory
    does not exist. *)
Definition discovery_world (output_dir : option string) (w : world) : world :=
  if truthy_str output_dir
  then snd (mkdir_parents (PurePath.Path (default EmptyString output_dir)) w)
  else w.

Definition discovered (directory_path : string) (recursive : bool)
    (output_dir : option string) (w : world) : list path :=
  if path_exists w (PurePath.Path directory_path)
  then image_files_of (PurePath.Path directory_path) recursive
         (discovery_world output_dir w)
  else [].

(** *** main *)

(** Lines 254-265: the optimizer that [main] builds. *)
Definition effective_config (args : Args) : Config :=
  let '(mw, mh) :=
    if truthy_int (arg_max_size args)
    then (default 0 (arg_max_size args), default 0 (arg_max_size args))
    else (arg_max_width args, arg_max_height args) in
  mkConfig (arg_quality args) mw mh (negb (arg_no_progressive args)).

(** Lines 259-299: a new optimizer, with new counters, runs over the
    directory; the result is the exit status. *)
Definition run_optimizer (args : Args) (w : world) : Z * world :=
  let self := effective_config args in
  let w := set_stats (λ _, stats_init) w in
  let w := put_line (LineConfiguration (arg_directory args) (arg_recursive args)
                       self (arg_backup args) (arg_output args)) w in
  match optimize_directory self (arg_directory args) (arg_recursive args)
          (arg_backup args) (arg_output args) w with
  | (Return true, w') => (0, put_line LineCompleted w')
  | (Return false, w') => (1, put_line LineNotCompleted w')
  | (Raise e, w') => (1, put_line (LineUnexpected e) w')
  end.

(** Lines 249-252 and the rest of [main]. *)
Definition main (args : Args) (w : world) : Z * world :=
  if ((arg_quality args <? 1) || (100 <? arg_quality args))%bool
  then (1, put_line LineQualityRange w)
  else run_optimizer args w.

End Optimizer.

(** A concrete directory: a photo, a scan in BMP and a PNG file that does not
    decode. *)
Definition photo : content := [Byte.x10; Byte.x00; Byte.x2a; Byte.x2a].
Definition corrupt : content := [Byte.x00; Byte.x01; Byte.x02].

Definition world_of (fs : list (path * content)) (ds : list path) : world :=
  mkWorld (list_to_map fs) (list_to_set ds) stats_init [].

Definition w_demo : world :=
  world_of [(["fotos"; "a.jpg"], photo); (["fotos"; "scan.bmp"], photo);
            (["fotos"; "bad.png"], corrupt)]
           [[]; ["fotos"]].

(** The same photo with a backup already beside it. *)
Definition w_backed : world :=
  world_of [(["fotos"; "a.jpg"], photo); (["fotos"; "a.backup.jpg"], corrupt)]
           [[]; ["fotos"]].


(** A directory with a photo and a text file, and one where the name of the
    output root is taken by a regular file. *)
Definition w_notes : world :=
  world_of [(["fotos"; "a.jpg"], photo); (["fotos"; "notes.txt"], corrupt)]
           [[]; ["fotos"]].

Definition w_blocked : world :=
  world_of [(["fotos"; "a.jpg"], photo); (["out"], corrupt)] [[]; ["fotos"]].

Definition cfg_default : Config := mkConfig 85 1920 1080 true.

(** An image of 3000 by 2000 pixels and a box of 1200 by 1200. *)
Definition img_3000x2000 : image unit := mkImage 3000 2000 "RGB" tt.
Definition cfg_1200 : Config := mkConfig 85 1200 1200 true.

(** ** The path operations on examples *)

Example suffix_ex1 : PurePath.suffix ["fotos"; "a.tar.JPG"] = ".JPG".
Proof. reflexivity. Qed.
Example suffix_ex2 : PurePath.suffix [".bashrc"] = "".
Proof. reflexivity. Qed.
Example suffix_ex3 : PurePath.suffix ["foo."] = "".
Proof. reflexivity. Qed.
Example with_suffix_ex :
  PurePath.with_suffix ["d"; "a.png"] (".backup" +:+ PurePath.suffix ["d"; "a.png"])
  = Some ["d"; "a.backup.png"].
Proof. reflexivity. Qed.
Example Path_ex : PurePath.Path "/x//y/./z.png" = ["/"; "x"; "y"; "z.png"].
Proof. reflexivity. Qed.
Example Path_dot : PurePath.Path "." = [].
Proof. reflexivity. Qed.

(** ** Properties *)

Section Properties.

Context {P : Pillow}.

Ltac run_monad :=
  unfold mbind, M_bind, mret, M_ret, raise, get_world, modify, print,
    try_except, catch in *; simpl in *.

(** *** Names and suffixes *)

Lemma length_append (a b : string) :
  String.length (a +:+ b) = (String.length a + String.length b)%nat.
Proof.
  induction a as [|c a IH]; [done|].
  change (S (String.length (a +:+ b)) = S (String.length a + String.length b)).
  by rewrite IH.
Qed.

Lemma rsplit_dot_append s a b : Str.rsplit_dot s = Some (a, b) → a +:+ b = s.
Proof.
  revert a b. induction s as [|c s IH]; intros a b; simpl; [done|].
  destruct (Str.rsplit_dot s) as [[a' b']|].
  - intros [= <- <-]. by rewrite <- (IH a' b' eq_refl).
  - destruct (Ascii.eqb c "."); [|done]. by intros [= <- <-].
Qed.

Lemma split_name_append n :
  fst (PurePath.split_name n) +:+ snd (PurePath.split_name n) = n.
Proof.
  unfold PurePath.split_name.
  assert (∀ a : string, a +:+ EmptyString = a) as Hnil.
  { induction a as [|c a IH]; [done|].
    change (String c (a +:+ EmptyString) = String c a). by rewrite IH. }
  destruct (Str.rsplit_dot n) as [[a b]|] eqn:Hs; [|by apply Hnil].
  case_match; [by apply rsplit_dot_append|by apply Hnil].
Qed.

(** A path with a name is its parent followed by the name, and the name is
    the stem followed by the suffix. *)
Lemma path_with_name p :
  Str.is_empty (PurePath.name p) = false →
  p = PurePath.parent p ++ [PurePath.stem p +:+ PurePath.suffix p].
Proof.
  unfold PurePath.stem, PurePath.suffix. rewrite split_name_append.
  unfold PurePath.name, PurePath.parent.
  destruct (last p) as [n|] eqn:Hlast; [|done].
  apply last_Some in Hlast as [l ->]. rewrite removelast_last.
  by destruct (String.eqb n "/").
Qed.

Lemma with_suffix_eq p s q :
  PurePath.with_suffix p s = Some q →
  Str.is_empty (PurePath.name p) = false
  ∧ q = PurePath.parent p ++ [PurePath.stem p +:+ s].
Proof.
  unfold PurePath.with_suffix.
  destruct (Str.is_empty (PurePath.name p)); [done|]. by intros [= <-].
Qed.

(** The backup path is the path with ".backup" put before the suffix. *)
Lemma backup_path_eq p bk :
  backup_path p = Some bk →
  bk = PurePath.parent p
         ++ [PurePath.stem p +:+ ".backup" +:+ PurePath.suffix p]
  ∧ p = PurePath.parent p ++ [PurePath.stem p +:+ PurePath.suffix p].
Proof.
  intros [Hn ->]%with_suffix_eq. split; [done|]. by apply path_with_name.
Qed.

Lemma backup_path_fresh p bk : backup_path p = Some bk → bk ≠ p.
Proof.
  intros [Hbk Hp]%backup_path_eq Heq. rewrite Heq in Hbk.
  rewrite Hp in Hbk at 1.
  apply app_inv_head in Hbk. injection Hbk as Hbk.
  apply (inj (String.app _)) in Hbk.
  apply (f_equal String.length) in Hbk.
  rewrite length_append in Hbk. simpl in Hbk. lia.
Qed.

Lemma backup_path_not_jpg p bk q :
  backup_path p = Some bk → PurePath.with_suffix p ".jpg" = Some q → bk ≠ q.
Proof.
  intros [-> _]%backup_path_eq [_ ->]%with_suffix_eq Heq.
  apply app_inv_head in Heq. injection Heq as Heq.
  apply (inj (String.app _)) in Heq. discriminate.
Qed.

Lemma save_target_cases ip op out :
  save_target ip op = Some out →
  out = op ∨ PurePath.with_suffix op ".jpg" = Some out.
Proof.
  unfold save_target. intros H. repeat case_match; simplify_eq; auto.
Qed.

(** The backup path is none of the paths an in-place run writes to. *)
Lemma backup_path_not_target ip p bk out :
  backup_path p = Some bk → save_target ip p = Some out → bk ≠ out.
Proof.
  intros Hbk [->|Hjpg]%save_target_cases.
  - by apply backup_path_fresh.
  - by eapply backup_path_not_jpg.
Qed.

(** *** The statements that leave the world alone *)

Lemma resize_step_world self i w r w' :
  resize_step self i w = (r, w') → w' = w.
Proof.
  unfold resize_step, thumbnail. run_monad.
  intros H. repeat case_match; simplify_eq; done.
Qed.

Lemma save_settings_world self f p w r w' :
  save_settings self f p w = (r, w') → w' = w.
Proof.
  unfold save_settings. run_monad.
  intros H. repeat case_match; simplify_eq; done.
Qed.

Lemma save_settings_target self ip op w kw out w' :
  save_settings self (get_output_format ip) op w = (Return (kw, out), w') →
  save_target ip op = Some out.
Proof.
  unfold save_settings, save_target. run_monad.
  intros H. repeat case_match; simplify_eq; done.
Qed.

(** *** What one call of the [try] body does *)

Lemma optimize_body_outcome self ip op w r w' :
  optimize_body self ip op w = (r, w') → body_outcome ip op w r w'.
Proof.
  unfold optimize_body, getsize, open_image, img_save, reduction_percent.
  run_monad. intros H.
  repeat (case_match; simplify_eq);
    repeat match goal with
      | H : resize_step _ _ _ = _ |- _ => apply resize_step_world in H as ->
      | H : save_settings _ _ _ _ = (Return _, _) |- _ =>
          pose proof (save_settings_target _ _ _ _ _ _ _ H);
          apply save_settings_world in H as ->
      | H : save_settings _ _ _ _ = _ |- _ => apply save_settings_world in H as ->
      | H : files (set_files _ _) !! _ = _ |- _ =>
          simpl in H; rewrite lookup_insert_eq in H; simplify_eq
      end.
  all: try (by eapply BodyFailed).
  all: try (by eapply BodyNoFile).
  all: try (eapply BodyEncodeFailed; by eauto).
  all: try (eapply (BodySaved _ _ _ _ _ _ _); eauto; apply Z.eqb_neq in H; lia).
  all: match goal with
       | H : (Z.of_nat (length ?c) =? 0) = true |- _ =>
           apply Z.eqb_eq in H; destruct c; [|discriminate]
       end; eapply BodyEmptyDecoded; eauto.
Qed.

(** *** The backup step and the whole of [optimize_image] *)

Lemma backup_step_cases ip op b w r w1 :
  backup_step ip op b w = (r, w1) →
  (r = Return ip ∧ w1 = w
   ∧ (b = false ∨ op ≠ ip
      ∨ ∃ bp, backup_path ip = Some bp ∧ path_exists w bp = true))
  ∨ (∃ e, r = Raise e ∧ w1 = w)
  ∨ (∃ bp c, b = true ∧ op = ip ∧ backup_path ip = Some bp
       ∧ path_exists w bp = false ∧ files w !! ip = Some c
       ∧ r = Return bp
       ∧ w1 = set_files (λ fs, <[bp := c]> (delete ip fs)) w).
Proof.
  unfold backup_step, os_rename. run_monad. intros H.
  destruct b; simpl in H; [|simplify_eq; left; by auto].
  case_bool_decide; simpl in H; [|simplify_eq; left; by auto].
  destruct (backup_path ip) as [bp|] eqn:Hbp; [|simplify_eq; by eauto].
  destruct (path_exists w bp) eqn:Hex; simpl in H.
  { simplify_eq. left. eauto 10. }
  destruct (files w !! ip) as [c|] eqn:Hc; simplify_eq; [|by eauto].
  right; right. eauto 10.
Qed.

Lemma optimize_image_unfold self ip op b w :
  optimize_image self ip op b w =
  match backup_step ip (default ip op) b w with
  | (Raise e, w1) => except_handler ip e w1
  | (Return ip', w1) =>
      match optimize_body self ip' (default ip op) w1 with
      | (Return a, w2) => (Return a, w2)
      | (Raise e, w2) => except_handler ip' e w2
      end
  end.
Proof.
  unfold optimize_image. run_monad.
  destruct (backup_step ip (default ip op) b w) as [[ip'|e] w1]; reflexivity.
Qed.

Lemma except_handler_eq ip e w :
  except_handler ip e w
  = (Return false,
     set_stats incr_errors (put_line (LineError (PurePath.name ip) e) w)).
Proof. reflexivity. Qed.

(** [optimize_image] lets no exception out. *)
Lemma optimize_image_returns self ip op b w :
  ∃ ok, fst (optimize_image self ip op b w) = Return ok.
Proof.
  rewrite optimize_image_unfold.
  destruct (backup_step _ _ _ _) as [[ip'|e] w1]; [|by eexists].
  destruct (optimize_body _ _ _ _) as [[a|e] w2]; by eexists.
Qed.

(** The counters after one call of [optimize_image]. *)
Lemma optimize_image_counters self ip op b w r w' :
  optimize_image self ip op b w = (r, w') →
  skipped (self_stats w') = skipped (self_stats w)
  ∧ ((r = Return true
      ∧ processed (self_stats w') = processed (self_stats w) + 1
      ∧ errors (self_stats w') = errors (self_stats w))
     ∨ (r = Return false
        ∧ errors (self_stats w') = errors (self_stats w) + 1
        ∧ (processed (self_stats w') = processed (self_stats w)
           ∨ ∃ i, Image_open [] = Some i))).
Proof.
  rewrite optimize_image_unfold.
  destruct (backup_step _ _ _ _) as [r1 w1] eqn:Hb.
  assert (self_stats w1 = self_stats w) as Hs.
  { apply backup_step_cases in Hb as [(_&->&_)|[(?&_&->)|(?&?&_&_&_&_&_&_&->)]];
      reflexivity. }
  destruct r1 as [ip'|e]; [|rewrite except_handler_eq; intros; simplify_eq;
                             simpl; rewrite Hs; eauto 10].
  destruct (optimize_body _ _ _ _) as [r2 w2] eqn:Hbody.
  apply optimize_body_outcome in Hbody.
  destruct Hbody; rewrite ?except_handler_eq; intros; simplify_eq; simpl;
    rewrite ?Hs; eauto 10.
Qed.

(** *** The loop of [optimize_directory] *)

Lemma mkdir_parents_cases p w r w' :
  mkdir_parents p w = (r, w') →
  files w' = files w ∧ self_stats w' = self_stats w ∧ stdout w' = stdout w
  ∧ (r = Return tt ∨ ∃ e, r = Raise e ∧ w' = w).
Proof.
  unfold mkdir_parents. run_monad. intros H.
  repeat case_match; simplify_eq; simpl; eauto 10.
Qed.

(** The path handed to [optimize_image] in one turn of the loop. *)
Lemma process_file_unfold self d b od f w :
  process_file self d b od f w =
  match od with
  | Some o =>
      match PurePath.relative_to f d with
      | None => (Raise ValueError, w)
      | Some rel =>
          match mkdir_parents (PurePath.parent (PurePath.joinpath o rel)) w with
          | (Raise e, w1) => (Raise e, w1)
          | (Return _, w1) =>
              match optimize_image self f (Some (PurePath.joinpath o rel)) b w1 with
              | (Return true, w2) => (Return tt, w2)
              | (Return false, w2) => (Return tt, set_stats incr_skipped w2)
              | (Raise e, w2) => (Raise e, w2)
              end
          end
      end
  | None =>
      match optimize_image self f None b w with
      | (Return true, w2) => (Return tt, w2)
      | (Return false, w2) => (Return tt, set_stats incr_skipped w2)
      | (Raise e, w2) => (Raise e, w2)
      end
  end.
Proof.
  unfold process_file. run_monad.
  destruct od as [o|]; [destruct (PurePath.relative_to f d); [|done];
                        destruct (mkdir_parents _ _) as [[[]|] ?]; [|done]|];
    destruct (optimize_image _ _ _ _ _) as [[[]|] ?]; reflexivity.
Qed.

Lemma process_file_counters self d b od f w r w' :
  process_file self d b od f w = (r, w') →
  balanced (self_stats w) (self_stats w')
  ∧ (r = Return tt → Image_open [] = None →
     counted 1 (self_stats w) (self_stats w')).
Proof.
  rewrite process_file_unfold. unfold balanced, counted.
  assert (∀ w1 op r w', self_stats w1 = self_stats w →
    match optimize_image self f op b w1 with
    | (Return true, w2) => (Return tt, w2)
    | (Return false, w2) => (Return tt, set_stats incr_skipped w2)
    | (Raise e, w2) => (Raise e, w2)
    end = (r, w') →
    skipped (self_stats w') - errors (self_stats w')
      = skipped (self_stats w) - errors (self_stats w)
    ∧ (r = Return tt → Image_open [] = None →
       processed (self_stats w') + errors (self_stats w')
         = processed (self_stats w) + errors (self_stats w) + 1)) as Hopt.
  { intros w1 op r0 w0 Hs.
    destruct (optimize_image self f op b w1) as [r1 w2] eqn:Ho.
    apply optimize_image_counters in Ho
      as (Hsk & [(-> & Hp & He)|(-> & He & [Hp|[i Hi]])]);
      intros; simplify_eq; simpl; rewrite <- Hs;
      (split; [lia|intros; try congruence; lia]). }
  destruct od as [o|]; [|by apply Hopt].
  destruct (PurePath.relative_to f d) as [rel|]; [|intros; by simplify_eq].
  destruct (mkdir_parents _ _) as [r1 w1] eqn:Hmk.
  apply mkdir_parents_cases in Hmk as (_ & Hs & _ & [->|(e & -> & ->)]);
    [by apply Hopt|intros; by simplify_eq].
Qed.

Lemma for_each_counters self d b od fs w r w' :
  for_each fs (process_file self d b od) w = (r, w') →
  balanced (self_stats w) (self_stats w')
  ∧ (r = Return tt → Image_open [] = None →
     counted (Z.of_nat (length fs)) (self_stats w) (self_stats w')).
Proof.
  revert w. unfold balanced, counted.
  induction fs as [|f fs IH]; intros w; simpl.
  { run_monad. intros; simplify_eq. split; [|intros]; lia. }
  unfold mbind, M_bind.
  destruct (process_file self d b od f w) as [r1 w1] eqn:Hf.
  apply process_file_counters in Hf as [Hbal Hcnt].
  unfold balanced, counted in *.
  destruct r1 as [[]|e]; [|intros; simplify_eq; split; [lia|done]].
  intros Hrest. apply IH in Hrest as [Hbal' Hcnt']. specialize (Hcnt eq_refl).
  split; [lia|]. intros Hr Hempty.
  specialize (Hcnt' Hr Hempty). specialize (Hcnt Hempty). lia.
Qed.

(** *** [optimize_directory] *)

Lemma optimize_directory_unfold self dp recursive backup od w :
  optimize_directory self dp recursive backup od w =
  if path_exists w (PurePath.Path dp) then
    if truthy_str od then
      match mkdir_parents (PurePath.Path (default EmptyString od)) w with
      | (Return _, w1) =>
          run_loop self (PurePath.Path dp) recursive backup
            (Some (PurePath.Path (default EmptyString od))) w1
      | (Raise e, w1) => (Raise e, w1)
      end
    else run_loop self (PurePath.Path dp) recursive backup None w
  else (Return false, put_line (LineNoDirectory dp) w).
Proof.
  unfold optimize_directory, run_loop, print_summary. run_monad.
  destruct (path_exists w (PurePath.Path dp)); simpl; [|done].
  destruct (truthy_str od); simpl.
  - destruct (mkdir_parents _ _) as [[[]|e] w1]; [|done].
    destruct (image_files_of _ _ w1) as [|f fs]; reflexivity.
  - destruct (image_files_of _ _ w) as [|f fs]; reflexivity.
Qed.

Lemma run_loop_counters self d recursive backup odp w r w' :
  run_loop self d recursive backup odp w = (r, w') →
  balanced (self_stats w) (self_stats w')
  ∧ (∀ ok, r = Return ok → Image_open [] = None →
     counted (Z.of_nat (length (image_files_of d recursive w)))
       (self_stats w) (self_stats w')).
Proof.
  unfold run_loop.
  destruct (image_files_of d recursive w) as [|f fs] eqn:Hfs.
  { intros; simplify_eq. unfold balanced, counted; simpl. split; [|intros]; lia. }
  destruct (for_each _ _ _) as [r1 w1] eqn:Hloop.
  apply for_each_counters in Hloop as [Hbal Hcnt].
  destruct r1 as [[]|e]; intros; simplify_eq; simpl in *.
  - split; [done|]. intros _ _. by apply Hcnt.
  - split; [done|]. intros ? ?. discriminate.
Qed.

(** C10: after every batch run the counter of skipped files equals the
    counter of errors: a run that starts with equal counters, as every new
    optimizer does, ends with equal counters, whether it completes or an
    exception of the loop ends it. *)
Theorem skipped_equals_errors self dp recursive backup od w r w' :
  skipped (self_stats w) = errors (self_stats w) →
  optimize_directory self dp recursive backup od w = (r, w') →
  skipped (self_stats w') = errors (self_stats w').
Proof.
  intros Heq. rewrite optimize_directory_unfold.
  assert (∀ odp w1, self_stats w1 = self_stats w →
            run_loop self (PurePath.Path dp) recursive backup odp w1 = (r, w') →
            skipped (self_stats w') = errors (self_stats w')) as Hloop.
  { intros odp w1 Hs Hrun. apply run_loop_counters in Hrun as [Hbal _].
    unfold balanced in Hbal. rewrite Hs in Hbal. lia. }
  destruct (path_exists _ _); [|intros; by simplify_eq].
  destruct (truthy_str od); [|by apply Hloop].
  destruct (mkdir_parents _ _) as [r1 w1] eqn:Hmk.
  apply mkdir_parents_cases in Hmk as (_ & Hs & _ & [->|(e & -> & ->)]);
    [by apply Hloop|intros; by simplify_eq].
Qed.

(** C2: when a batch run that starts with new counters completes, the
    processed files and the errors add up to the number of candidates it
    discovered.  An empty file is no image for Pillow. *)
Theorem processed_plus_errors self dp recursive backup od w ok w' :
  Image_open [] = None →
  self_stats w = stats_init →
  optimize_directory self dp recursive backup od w = (Return ok, w') →
  processed (self_stats w') + errors (self_stats w')
  = Z.of_nat (length (discovered dp recursive od w)).
Proof.
  intros Hempty Hinit. rewrite optimize_directory_unfold.
  unfold discovered, discovery_world.
  assert (∀ odp w1, self_stats w1 = self_stats w →
            run_loop self (PurePath.Path dp) recursive backup odp w1
              = (Return ok, w') →
            processed (self_stats w') + errors (self_stats w')
            = Z.of_nat (length (image_files_of (PurePath.Path dp) recursive w1)))
    as Hloop.
  { intros odp w1 Hs Hrun. apply run_loop_counters in Hrun as [_ Hcnt].
    specialize (Hcnt ok eq_refl Hempty). unfold counted in Hcnt.
    rewrite Hs, Hinit in Hcnt. simpl in Hcnt. lia. }
  destruct (path_exists _ _); [|intros; simplify_eq; simpl; by rewrite Hinit].
  destruct (truthy_str od); [|by apply Hloop].
  destruct (mkdir_parents _ _) as [r1 w1] eqn:Hmk. simpl.
  apply mkdir_parents_cases in Hmk as (_ & Hs & _ & [->|(e & -> & ->)]);
    [by apply Hloop|intros; by simplify_eq].
Qed.

(** *** A file that fails *)

Lemma undecodable_body self ip op c w :
  files w !! ip = Some c → Image_open c = None →
  optimize_body self ip op w
  = (Raise UnidentifiedImageError, world_after_read c w).
Proof.
  intros Hc Hopen. unfold optimize_body, getsize, open_image. run_monad.
  rewrite Hc. simpl. rewrite Hc, Hopen. reflexivity.
Qed.

(** C1 (what the code does): a file that exists and does not decode is
    counted in errors and in skipped, and its size has already been added to
    the total of original bytes. *)
Theorem failed_file_adds_original_size self d f c w :
  files w !! f = Some c → Image_open c = None →
  ∃ w', process_file self d false None f w = (Return tt, w')
    ∧ errors (self_stats w') = errors (self_stats w) + 1
    ∧ skipped (self_stats w') = skipped (self_stats w) + 1
    ∧ processed (self_stats w') = processed (self_stats w)
    ∧ optimized_size (self_stats w') = optimized_size (self_stats w)
    ∧ original_size (self_stats w')
      = original_size (self_stats w) + Z.of_nat (length c).
Proof.
  intros Hc Hopen. rewrite process_file_unfold, optimize_image_unfold. simpl.
  unfold backup_step. simpl. run_monad.
  rewrite (undecodable_body _ _ _ c) by done.
  eexists. split; [reflexivity|]. simpl. auto.
Qed.

(** *** The report line *)

Lemma reduction_value_sign o p :
  0 < o →
  ((0 < reduction_value o p)%Q ↔ p < o)
  ∧ ((reduction_value o p < 0)%Q ↔ o < p)
  ∧ (sign_shown (reduction_value o p) = "-"%char ↔ o < p).
Proof.
  intros Ho.
  assert (∀ n, ((0 < reduction_value o n)%Q ↔ n < o)
               ∧ ((reduction_value o n < 0)%Q ↔ o < n)
               ∧ (Qle_bool 0 (reduction_value o n) = true ↔ n ≤ o)) as Hs.
  { intros n. unfold reduction_value. rewrite Qle_bool_iff.
    destruct o as [|o|o]; try lia.
    unfold Qlt, Qle, Qmult, Qdiv, Qinv, inject_Z. simpl.
    destruct (Z.pos o - n) eqn:Hd; simpl; lia. }
  destruct (Hs p) as (H1 & H2 & H3). split; [done|]. split; [done|].
  unfold sign_shown. destruct (Qle_bool 0 (reduction_value o p)) eqn:Hb.
  - split; [discriminate|]. intros. pose proof (proj1 H3 eq_refl). lia.
  - split; [|done]. intros _.
    destruct (Z_lt_le_dec o p) as [|Hle]; [done|].
    apply H3 in Hle. discriminate.
Qed.

(** C3 (amended): the line of a processed file shows the reduction, the
    share of the original size that was saved: it is positive when the file
    shrank and negative, with a minus sign, when the optimized file is larger
    than the original. *)
Theorem report_line_shows_reduction self ip op b w w' :
  optimize_image self ip op b w = (Return true, w') →
  ∃ name o p,
    stdout w' = stdout w ++ [LineOk name o p (reduction_value o p)]
    ∧ original_size (self_stats w') = original_size (self_stats w) + o
    ∧ optimized_size (self_stats w') = optimized_size (self_stats w) + p
    ∧ 0 < o
    ∧ ((0 < reduction_value o p)%Q ↔ p < o)
    ∧ ((reduction_value o p < 0)%Q ↔ o < p)
    ∧ (sign_shown (reduction_value o p) = "-"%char ↔ o < p).
Proof.
  rewrite optimize_image_unfold.
  destruct (backup_step _ _ _ _) as [r1 w1] eqn:Hb.
  assert (self_stats w1 = self_stats w ∧ stdout w1 = stdout w) as [Hs Ho].
  { apply backup_step_cases in Hb as [(_&->&_)|[(?&_&->)|(?&?&_&_&_&_&_&_&->)]];
      done. }
  destruct r1 as [ip'|e]; [|rewrite except_handler_eq; intros; simplify_eq].
  destruct (optimize_body _ _ _ _) as [r2 w2] eqn:Hbody.
  apply optimize_body_outcome in Hbody.
  destruct Hbody; rewrite ?except_handler_eq; intros; simplify_eq.
  eexists _, _, _. simpl. rewrite Hs, Ho.
  split; [reflexivity|]. split; [reflexivity|]. split; [reflexivity|].
  assert (0 < Z.of_nat (length c)) by lia.
  split; [done|]. by apply reduction_value_sign.
Qed.

(** *** main *)

(** C7: a quality between 1 and 100 passes the check and the run goes on
    with an optimizer of that quality; any other quality ends the program
    with status 1 before anything but the standard output has changed. *)
Theorem quality_is_validated args w :
  (1 ≤ arg_quality args ≤ 100 →
     main args w = run_optimizer args w
     ∧ quality (effective_config args) = arg_quality args)
  ∧ (arg_quality args < 1 ∨ 100 < arg_quality args →
     fst (main args w) = 1
     ∧ files (snd (main args w)) = files w
     ∧ dirs (snd (main args w)) = dirs w
     ∧ self_stats (snd (main args w)) = self_stats w
     ∧ stdout (snd (main args w)) = stdout w ++ [LineQualityRange]).
Proof.
  unfold main. split; intros Hq.
  - replace (arg_quality args <? 1) with false by lia.
    replace (100 <? arg_quality args) with false by lia. simpl.
    split; [done|]. unfold effective_config. by case_match.
  - destruct Hq.
    + replace (arg_quality args <? 1) with true by lia. done.
    + replace (100 <? arg_quality args) with true by lia.
      rewrite orb_true_r. done.
Qed.

(** A [--max-size] other than 0 replaces both maxima. *)
Lemma max_size_overrides args v :
  arg_max_size args = Some v → v ≠ 0 →
  max_width (effective_config args) = v
  ∧ max_height (effective_config args) = v.
Proof.
  intros Hv Hne. unfold effective_config, truthy_int. rewrite Hv. simpl.
  replace (v =? 0) with false by lia. done.
Qed.

(** C8 (what the code does): [--max-size 0] is taken as absent: the maxima
    stay those of [--max-width] and [--max-height]. *)
Theorem max_size_zero_is_ignored :
  let args := mkArgs "." false 85 1920 1080 (Some 0) false None false in
  max_width (effective_config args) = 1920
  ∧ max_height (effective_config args) = 1080.
Proof. split; reflexivity. Qed.

(** *** The files after one call of [optimize_image] *)

(** The only file the [try] body writes is the one [save_settings] names;
    when the body fails, that file was there before, unless an empty file
    was decoded. *)
Lemma optimize_body_files ip op w r w' :
  body_outcome ip op w r w' →
  dirs w' = dirs w
  ∧ (files w' = files w
     ∨ ∃ out c', save_target ip op = Some out
         ∧ files w' = <[out := c']> (files w)
         ∧ (r ≠ Return true →
            is_Some (files w !! out) ∨ ∃ i, Image_open [] = Some i)).
Proof.
  destruct 1; simpl; (split; [done|]); auto.
  - right. eexists _, _. split; [done|]. split; [done|]. intros _. left.
    unfold is_file in *. by case_bool_decide.
  - right. eexists _, _. split; [done|]. split; [done|]. done.
  - right. eexists _, _. split; [done|]. split; [done|]. eauto.
Qed.

Lemma optimize_image_files self ip op b w r w' :
  optimize_image self ip op b w = (r, w') →
  ∃ r1 w1, backup_step ip (default ip op) b w = (r1, w1)
    ∧ dirs w' = dirs w
    ∧ match r1 with
      | Raise _ => files w' = files w1 ∧ r = Return false
      | Return ip' =>
          files w' = files w1
          ∨ ∃ out c', save_target ip' (default ip op) = Some out
              ∧ files w' = <[out := c']> (files w1)
              ∧ (r = Return false →
                 is_Some (files w1 !! out) ∨ ∃ i, Image_open [] = Some i)
      end.
Proof.
  rewrite optimize_image_unfold.
  destruct (backup_step _ _ _ _) as [r1 w1] eqn:Hb.
  assert (dirs w1 = dirs w) as Hd.
  { apply backup_step_cases in Hb as [(_&->&_)|[(?&_&->)|(?&?&_&_&_&_&_&_&->)]];
      done. }
  intros Ho. exists r1, w1. split; [done|].
  destruct r1 as [ip'|e];
    [|rewrite except_handler_eq in Ho; simplify_eq; simpl; auto].
  destruct (optimize_body _ _ _ _) as [r2 w2] eqn:Hbody.
  apply optimize_body_outcome, optimize_body_files in Hbody
    as [Hd2 [Hf|(out & c' & Ht & Hf & Hfail)]].
  - destruct r2; rewrite ?except_handler_eq in Ho; simplify_eq; simpl;
      (split; [congruence|auto]).
  - destruct r2; rewrite ?except_handler_eq in Ho; simplify_eq; simpl;
      (split; [congruence|]); right; exists out, c';
      (split; [done|]); (split; [done|]); intros Hr; apply Hfail; congruence.
Qed.

(** An in-place call with [backup] finds the backup path taken: it is the
    call without [backup]. *)
Lemma backup_step_taken p bk w :
  backup_path p = Some bk → path_exists w bk = true →
  backup_step p p true w = (Return p, w).
Proof.
  intros Hbk Hex. unfold backup_step. simpl.
  rewrite bool_decide_eq_true_2 by done. rewrite Hbk. run_monad.
  by rewrite Hex.
Qed.

Lemma backup_step_renames p bk c w :
  backup_path p = Some bk → path_exists w bk = false →
  files w !! p = Some c →
  backup_step p p true w
  = (Return bk, set_files (λ fs, <[bk := c]> (delete p fs)) w).
Proof.
  intros Hbk Hex Hc. unfold backup_step, os_rename. simpl.
  rewrite bool_decide_eq_true_2 by done. rewrite Hbk. run_monad.
  rewrite Hex. simpl. by rewrite Hc.
Qed.

Lemma backup_step_no_file p bk w :
  backup_path p = Some bk → path_exists w bk = false →
  files w !! p = None →
  backup_step p p true w = (Raise FileNotFoundError, w).
Proof.
  intros Hbk Hex Hc. unfold backup_step, os_rename. simpl.
  rewrite bool_decide_eq_true_2 by done. rewrite Hbk. run_monad.
  rewrite Hex. simpl. by rewrite Hc.
Qed.

(** The files after an in-place call with [backup]. *)
Lemma backup_file_after self p bk w :
  backup_path p = Some bk →
  let w' := snd (optimize_image self p None true w) in
  dirs w' = dirs w
  ∧ files w' !! bk
    = (if path_exists w bk then files w !! bk else files w !! p)
  ∧ (path_exists w bk = false → Image_open [] = None →
     fst (optimize_image self p None true w) = Return false →
     files w' !! p = None)
  ∧ (∀ q, is_Some (files w' !! q) →
       is_Some (files w !! q) ∨ q = bk ∨ q = p
       ∨ PurePath.with_suffix p ".jpg" = Some q).
Proof.
  intros Hbk. simpl.
  destruct (optimize_image self p None true w) as [r w'] eqn:Ho. simpl.
  apply optimize_image_files in Ho as (r1 & w1 & Hb & Hd & Hf). simpl in Hb.
  pose proof (backup_path_fresh _ _ Hbk) as Hne.
  assert (∀ ip out, save_target ip p = Some out →
            bk ≠ out ∧ (out = p ∨ PurePath.with_suffix p ".jpg" = Some out))
    as Hout.
  { intros ip out Ht. split; [by eapply backup_path_not_target|].
    by apply (save_target_cases ip). }
  split; [done|].
  destruct (path_exists w bk) eqn:Hex.
  - rewrite (backup_step_taken _ _ _ Hbk Hex) in Hb. injection Hb as <- <-.
    destruct Hf as [->|(out & c' & Ht & -> & _)];
      [|apply Hout in Ht as [Hn Ht]].
    + split; [done|]. split; [done|]. auto.
    + split; [by rewrite lookup_insert_ne by (symmetry; auto)|].
      split; [done|]. intros q Hq.
      destruct (decide (out = q)) as [<-|]; [by destruct Ht; auto|].
      rewrite lookup_insert_ne in Hq by done. auto.
  - destruct (files w !! p) as [c|] eqn:Hc.
    + rewrite (backup_step_renames _ _ _ _ Hbk Hex Hc) in Hb. injection Hb as <- <-.
      simpl in Hf.
      destruct Hf as [->|(out & c' & Ht & -> & Hfail)];
        [|apply Hout in Ht as [Hn Ht]].
      * split; [by rewrite lookup_insert_eq|].
        split; [intros; by rewrite lookup_insert_ne, lookup_delete_eq|].
        intros q Hq. destruct (decide (bk = q)) as [<-|]; [by auto|].
        rewrite lookup_insert_ne in Hq by done.
        destruct (decide (p = q)) as [<-|]; [by auto|].
        rewrite lookup_delete_ne in Hq by done. auto.
      * split; [by rewrite lookup_insert_ne, lookup_insert_eq
                  by (symmetry; auto)|].
        split.
        { intros _ Hempty ->.
          destruct (Hfail eq_refl) as [Hsome|[i Hi]]; [|congruence].
          destruct (decide (out = p)) as [->|];
            [|by rewrite lookup_insert_ne, lookup_insert_ne, lookup_delete_eq].
          rewrite lookup_insert_ne, lookup_delete_eq in Hsome by done.
          by destruct Hsome. }
        intros q Hq.
        destruct (decide (out = q)) as [<-|]; [by destruct Ht; auto|].
        rewrite lookup_insert_ne in Hq by done.
        destruct (decide (bk = q)) as [<-|]; [by auto|].
        rewrite lookup_insert_ne in Hq by done.
        destruct (decide (p = q)) as [<-|]; [by auto|].
        rewrite lookup_delete_ne in Hq by done. auto.
    + rewrite (backup_step_no_file _ _ _ Hbk Hex Hc) in Hb. injection Hb as <- <-.
      destruct Hf as [-> _].
      assert (files w !! bk = None) as Hnone.
      { unfold path_exists, is_file in Hex. apply orb_false_iff in Hex as [Hex _].
        apply bool_decide_eq_false in Hex.
        destruct (files w !! bk); [by destruct Hex|done]. }
      split; [done|]. split; [done|]. auto.
Qed.

Lemma path_exists_dirs_files w w' p :
  dirs w' = dirs w → files w' !! p = files w !! p →
  path_exists w' p = path_exists w p.
Proof. unfold path_exists, is_file. by intros -> ->. Qed.

(** C5 (amended): for a path that is no directory, the backup path is the
    path with ".backup" before its suffix.  When something exists there, an
    in-place call of [optimize_image] with [backup] renames nothing: it is
    the call without [backup], it lets no exception out and it leaves the
    file at the backup path as it is.  Two such calls in a row on the same
    path leave the backup of the first one in place, and the only files they
    can add are the backup and the optimized file. *)
Theorem backup_is_made_once self p bk w :
  backup_path p = Some bk →
  p ∉ dirs w →
  (bk = PurePath.parent p
          ++ [PurePath.stem p +:+ ".backup" +:+ PurePath.suffix p]
   ∧ p = PurePath.parent p ++ [PurePath.stem p +:+ PurePath.suffix p])
  ∧ (path_exists w bk = true →
     optimize_image self p None true w = optimize_image self p None false w
     ∧ (∃ ok, fst (optimize_image self p None true w) = Return ok)
     ∧ files (snd (optimize_image self p None true w)) !! bk = files w !! bk)
  ∧ (let w1 := snd (optimize_image self p None true w) in
     let w2 := snd (optimize_image self p None true w1) in
     files w2 !! bk = files w1 !! bk
     ∧ ∀ q, is_Some (files w2 !! q) →
         is_Some (files w !! q) ∨ q = bk ∨ q = p
         ∨ PurePath.with_suffix p ".jpg" = Some q).
Proof.
  intros Hbk _. split; [by apply backup_path_eq|].
  pose proof (backup_file_after self p bk w Hbk) as (Hd & Hfile & _ & Hnew).
  split.
  - intros Hex. split; [|split; [apply optimize_image_returns|]].
    + rewrite !optimize_image_unfold. simpl.
      by rewrite (backup_step_taken _ _ _ Hbk Hex).
    + by rewrite Hfile, Hex.
  - simpl. set (w1 := snd (optimize_image self p None true w)) in *.
    pose proof (backup_file_after self p bk w1 Hbk) as (Hd1 & Hfile1 & _ & Hnew1).
    split.
    + rewrite Hfile1. destruct (path_exists w1 bk) eqn:Hex1; [done|].
      (* no backup after the first call: there was no file to rename *)
      assert (files w1 !! bk = None) as Hb1.
      { unfold path_exists, is_file in Hex1.
        apply orb_false_iff in Hex1 as [Hex1 _].
        apply bool_decide_eq_false in Hex1.
        destruct (files w1 !! bk); [by destruct Hex1|done]. }
      destruct (path_exists w bk) eqn:Hex.
      { rewrite (path_exists_dirs_files w w1) in Hex1; [congruence|done..]. }
      assert (files w !! p = None) as Hp by (by rewrite <- Hfile).
      rewrite Hb1. subst w1. rewrite optimize_image_unfold. simpl.
      by rewrite (backup_step_no_file _ _ _ Hbk Hex Hp).
    + intros q Hq. apply Hnew1 in Hq as [Hq|Hq]; [by apply Hnew|by right].
Qed.

(** C9: an in-place call with [backup] that finds nothing at the backup
    path and fails once the original is renamed returns with no file at the
    original path and the original bytes at the backup path. *)
Theorem failure_after_backup_rename self p bk c w w' :
  Image_open [] = None →
  backup_path p = Some bk →
  path_exists w bk = false →
  files w !! p = Some c →
  optimize_image self p None true w = (Return false, w') →
  files w' !! p = None ∧ files w' !! bk = Some c.
Proof.
  intros Hempty Hbk Hex Hc Ho.
  pose proof (backup_file_after self p bk w Hbk) as (_ & Hfile & Hgone & _).
  rewrite Ho in Hfile, Hgone. simpl in *. rewrite Hex, Hc in Hfile.
  split; [by apply Hgone|done].
Qed.

(** *** Mirrored output *)

Lemma strip_prefix_app p d rel :
  PurePath.strip_prefix p d = Some rel → p = d ++ rel.
Proof.
  revert p. induction d as [|x d IH]; intros [|y p]; simpl; try done.
  - by intros [= ->].
  - by intros [= ->].
  - destruct (String.eqb x y) eqn:Hxy; [|done].
    apply String.eqb_eq in Hxy as ->. intros ->%IH. done.
Qed.

Lemma relative_to_app p d rel :
  PurePath.relative_to p d = Some rel → p = d ++ rel.
Proof.
  unfold PurePath.relative_to. intros H. apply strip_prefix_app.
  by repeat case_match.
Qed.






(** *** The resize step *)

Lemma round_aspect_bounds (q : Q) key :
  (0 < q)%Q →
  let r := round_aspect q key in
  1 ≤ r ∧ r ≤ Qceiling q ∧ (inject_Z r - 1 < q)%Q ∧ (q < inject_Z r + 1)%Q.
Proof.
  intros Hq. simpl. unfold round_aspect.
  pose proof (Qfloor_le q) as Hfl. pose proof (Qlt_floor q) as Hfl'.
  pose proof (Qle_ceiling q) as Hce. pose proof (Qceiling_lt q) as Hce'.
  pose proof (Qle_floor_ceiling q) as Hfc.
  set (lo := Qfloor q) in *. set (hi := Qceiling q) in *.
  destruct q as [n d]. unfold Qlt, Qle, Qplus, Qminus, Qopp, inject_Z in *.
  simpl in *.
  destruct (Qle_bool _ _); lia.
Qed.

Lemma thumbnail_size_fits W H x y :
  0 < W → 0 < H → 0 < x → 0 < y → ¬ (W ≤ x ∧ H ≤ y) →
  ∃ x' y', thumbnail_size W H (x, y) = Return (x', y')
    ∧ 1 ≤ x' ≤ x ∧ 1 ≤ y' ≤ y ∧ x' ≤ W ∧ y' ≤ H
    ∧ ((y' = y ∧ Z.abs (x' * H - y * W) < H)
       ∨ (x' = x ∧ Z.abs (y' * W - x * H) < W)).
Proof.
  intros HW HH Hx Hy Hfit. unfold thumbnail_size.
  replace ((W <=? x) && (H <=? y))%bool with false
    by (symmetry; apply andb_false_iff; lia).
  replace ((H =? 0) || (y =? 0) || (W =? 0))%bool with false
    by (symmetry; rewrite !orb_false_iff; lia).
  destruct W as [|pw|], H as [|ph|], x as [|px|], y as [|py|]; try lia.
  destruct (Qle_bool _ _) eqn:Hle.
  - apply Qle_bool_iff in Hle.
    match goal with |- context [round_aspect ?q ?k] =>
      pose proof (round_aspect_bounds q k) as Hr;
      pose proof (Qceiling_resp_le q (inject_Z (Z.pos px))) as Hc1;
      pose proof (Qceiling_resp_le q (inject_Z (Z.pos pw))) as Hc2;
      set (r := round_aspect q k) in *
    end.
    rewrite Qceiling_Z in Hc1, Hc2.
    unfold Qlt, Qle, Qplus, Qminus, Qopp, Qmult, Qdiv, Qinv, inject_Z in *.
    simpl in *.
    eexists _, _. split; [reflexivity|].
    assert (Z.pos py ≤ Z.pos ph) by nia.
    specialize (Hr ltac:(lia)). destruct Hr as (? & ? & ? & ?).
    specialize (Hc1 ltac:(lia)). specialize (Hc2 ltac:(nia)).
    repeat split; lia.
  - assert (¬ (Qle_bool (inject_Z (Z.pos pw) / inject_Z (Z.pos ph))
                 (inject_Z (Z.pos px) / inject_Z (Z.pos py)) = true)) as Hlt
      by (rewrite Hle; done).
    rewrite Qle_bool_iff in Hlt.
    match goal with |- context [round_aspect ?q ?k] =>
      pose proof (round_aspect_bounds q k) as Hr;
      pose proof (Qceiling_resp_le q (inject_Z (Z.pos py))) as Hc1;
      pose proof (Qceiling_resp_le q (inject_Z (Z.pos ph))) as Hc2;
      set (r := round_aspect q k) in *
    end.
    rewrite Qceiling_Z in Hc1, Hc2.
    unfold Qlt, Qle, Qplus, Qminus, Qopp, Qmult, Qdiv, Qinv, inject_Z in *.
    simpl in *.
    eexists _, _. split; [reflexivity|].
    assert (Z.pos px ≤ Z.pos pw) by nia.
    specialize (Hr ltac:(lia)). destruct Hr as (? & ? & ? & ?).
    specialize (Hc1 ltac:(lia)). specialize (Hc2 ltac:(nia)).
    repeat split; lia.
Qed.
(** C6 (amended): for an image and a box with positive sides, an image that
    fits the box goes through the resize step as it is; an image that does
    not fit comes out with both sides within the box and at least 1, one
    side equal to the side of the box and the other within one pixel of the
    exactly scaled value. *)
Theorem resize_step_fits_box self i w :
  0 < width i → 0 < height i → 0 < max_width self → 0 < max_height self →
  (width i ≤ max_width self ∧ height i ≤ max_height self →
   resize_step self i w = (Return i, w))
  ∧ (¬ (width i ≤ max_width self ∧ height i ≤ max_height self) →
     ∃ i', resize_step self i w = (Return i', w)
       ∧ mode i' = mode i
       ∧ 1 ≤ width i' ≤ max_width self
       ∧ 1 ≤ height i' ≤ max_height self
       ∧ width i' ≤ width i ∧ height i' ≤ height i
       ∧ ((height i' = max_height self
           ∧ Z.abs (width i' * height i - height i' * width i) < height i)
          ∨ (width i' = max_width self
             ∧ Z.abs (height i' * width i - width i' * height i) < width i))).
Proof.
  intros HW HH Hx Hy. unfold resize_step. split.
  - intros [? ?].
    replace (max_width self <? width i) with false by lia.
    replace (max_height self <? height i) with false by lia. done.
  - intros Hfit.
    replace ((max_width self <? width i) || (max_height self <? height i))%bool
      with true by (symmetry; apply orb_true_iff; lia).
    destruct (thumbnail_size_fits _ _ _ _ HW HH Hx Hy Hfit)
      as (x' & y' & Hsize & Hx' & Hy' & HxW & HyH & Hasp).
    unfold thumbnail. rewrite Hsize.
    destruct ((x' =? width i) && (y' =? height i))%bool eqn:Hsame.
    + apply andb_true_iff in Hsame as [->%Z.eqb_eq ->%Z.eqb_eq].
      exists i. repeat split; try done; lia.
    + replace ((x' <=? 0) || (y' <=? 0))%bool with false
        by (symmetry; apply orb_false_iff; lia).
      eexists. split; [reflexivity|]. simpl. repeat split; try done; lia.
Qed.

End Properties.

(** ** The properties on concrete runs *)

Ltac by_computation := vm_compute; reflexivity.

(** The file "bad.png" of the directory "fotos" does not decode. *)
Lemma failed_file_adds_original_size_witness :
  files w_demo !! ["fotos"; "bad.png"] = Some corrupt
  ∧ toy_open corrupt = None
  ∧ ∃ w', process_file (P:=toy_pillow) cfg_default ["fotos"] false None
            ["fotos"; "bad.png"] w_demo = (Return tt, w')
      ∧ errors (self_stats w') = errors (self_stats w_demo) + 1
      ∧ skipped (self_stats w') = skipped (self_stats w_demo) + 1
      ∧ processed (self_stats w') = processed (self_stats w_demo)
      ∧ optimized_size (self_stats w') = optimized_size (self_stats w_demo)
      ∧ original_size (self_stats w')
        = original_size (self_stats w_demo) + Z.of_nat (length corrupt).
Proof.
  split; [by_computation|]. split; [by_computation|].
  apply (failed_file_adds_original_size (P:=toy_pillow)); by_computation.
Defined.

(** A run with backups over "fotos": two files succeed, one fails. *)
Lemma processed_plus_errors_witness :
  toy_open [] = None
  ∧ self_stats w_demo = stats_init
  ∧ fst (optimize_directory (P:=toy_pillow) cfg_default "fotos" false true
           None w_demo) = Return true
  ∧ processed (self_stats (snd (optimize_directory (P:=toy_pillow) cfg_default
                                  "fotos" false true None w_demo)))
    + errors (self_stats (snd (optimize_directory (P:=toy_pillow) cfg_default
                                 "fotos" false true None w_demo)))
    = Z.of_nat (length (discovered "fotos" false None w_demo)).
Proof.
  split; [by_computation|]. split; [by_computation|]. split; [by_computation|].
  apply (processed_plus_errors (P:=toy_pillow) cfg_default "fotos" false true
           None w_demo true); by_computation.
Defined.

Lemma skipped_equals_errors_witness :
  skipped (self_stats w_demo) = errors (self_stats w_demo)
  ∧ skipped (self_stats (snd (optimize_directory (P:=toy_pillow) cfg_default
                                "fotos" false true None w_demo)))
    = errors (self_stats (snd (optimize_directory (P:=toy_pillow) cfg_default
                                 "fotos" false true None w_demo))).
Proof.
  split; [by_computation|].
  apply (skipped_equals_errors (P:=toy_pillow) cfg_default "fotos" false true
           None w_demo
           (fst (optimize_directory (P:=toy_pillow) cfg_default "fotos" false
                   true None w_demo)));
    [by_computation|apply surjective_pairing].
Defined.

(** C3 (the claim as stated fails): the photo of 4 bytes is optimized to 1
    byte; the line shows the positive number 75 although the optimized file
    is not larger than the original. *)
Lemma positive_delta_is_a_saving :
  let w' := snd (optimize_image (P:=toy_pillow) cfg_default ["fotos"; "a.jpg"]
                   None false w_demo) in
  ¬ (∀ name o p r, LineOk name o p r ∈ stdout w' →
       ((0 < r)%Q → o < p) ∧ ((r < 0)%Q → p < o)).
Proof.
  intros w' Hclaim.
  destruct (Hclaim "a.jpg" 4 1 (300 # 4)%Q) as [Hpos _].
  - vm_compute. apply list_elem_of_here.
  - specialize (Hpos eq_refl). discriminate Hpos.
Qed.

Lemma report_line_shows_reduction_witness :
  optimize_image (P:=toy_pillow) cfg_default ["fotos"; "a.jpg"] None false w_demo
  = (Return true,
     snd (optimize_image (P:=toy_pillow) cfg_default ["fotos"; "a.jpg"] None
            false w_demo))
  ∧ ∃ name o p,
      stdout (snd (optimize_image (P:=toy_pillow) cfg_default
                     ["fotos"; "a.jpg"] None false w_demo))
      = stdout w_demo ++ [LineOk name o p (reduction_value o p)]
      ∧ 0 < o
      ∧ ((0 < reduction_value o p)%Q ↔ p < o).
Proof.
  assert (optimize_image (P:=toy_pillow) cfg_default ["fotos"; "a.jpg"] None
            false w_demo
          = (Return true,
             snd (optimize_image (P:=toy_pillow) cfg_default ["fotos"; "a.jpg"]
                    None false w_demo))) as Hrun by by_computation.
  split; [exact Hrun|].
  destruct (report_line_shows_reduction (P:=toy_pillow) cfg_default
              ["fotos"; "a.jpg"] None false w_demo _ Hrun)
    as (name & o & p & Hout & _ & _ & Ho & Hpos & _).
  exists name, o, p. split; [exact Hout|]. split; [exact Ho|exact Hpos].
Defined.

(** C5 (the claim as stated fails): two batch runs with backups over a
    directory with one photo.  The second run lists the backup of the first
    among its candidates, since its suffix is a supported one: the file at
    the backup path of the photo is renamed in turn and the optimized bytes
    take its place, so the existing backup is not left as it was, and the
    directory ends with two backup files. *)
Lemma second_batch_run_backs_up_the_backup :
  let w0 := world_of [(["fotos"; "a.jpg"], photo)] [[]; ["fotos"]] in
  let w1 := snd (optimize_directory (P:=toy_pillow) cfg_default "fotos" false
                   true None w0) in
  let w2 := snd (optimize_directory (P:=toy_pillow) cfg_default "fotos" false
                   true None w1) in
  backup_path ["fotos"; "a.jpg"] = Some ["fotos"; "a.backup.jpg"]
  ∧ files w1 !! ["fotos"; "a.backup.jpg"] = Some photo
  ∧ ¬ (files w2 !! ["fotos"; "a.backup.jpg"]
       = files w1 !! ["fotos"; "a.backup.jpg"])
  ∧ files w2 !! ["fotos"; "a.backup.jpg"] = Some [Byte.x07]
  ∧ files w2 !! ["fotos"; "a.backup.backup.jpg"] = Some photo.
Proof.
  intros w0 w1 w2.
  assert (files w1 !! ["fotos"; "a.backup.jpg"] = Some photo) as H1
    by by_computation.
  assert (files w2 !! ["fotos"; "a.backup.jpg"] = Some [Byte.x07]) as H2
    by by_computation.
  split; [by_computation|]. split; [exact H1|].
  split; [rewrite H1, H2; intros H; discriminate H|].
  split; [exact H2|by_computation].
Qed.

(** A photo whose backup is already there. *)
Lemma backup_is_made_once_witness :
  backup_path ["fotos"; "a.jpg"] = Some ["fotos"; "a.backup.jpg"]
  ∧ (["fotos"; "a.jpg"] ∉ dirs w_backed)
  ∧ path_exists w_backed ["fotos"; "a.backup.jpg"] = true
  ∧ optimize_image (P:=toy_pillow) cfg_default ["fotos"; "a.jpg"] None true
      w_backed
    = optimize_image (P:=toy_pillow) cfg_default ["fotos"; "a.jpg"] None false
        w_backed
  ∧ files (snd (optimize_image (P:=toy_pillow) cfg_default ["fotos"; "a.jpg"]
                  None true w_backed)) !! ["fotos"; "a.backup.jpg"]
    = files w_backed !! ["fotos"; "a.backup.jpg"].
Proof.
  assert (backup_path ["fotos"; "a.jpg"] = Some ["fotos"; "a.backup.jpg"])
    as Hbk by by_computation.
  assert (path_exists w_backed ["fotos"; "a.backup.jpg"] = true)
    as Hex by by_computation.
  assert (["fotos"; "a.jpg"] ∉ dirs w_backed) as Hnd.
  { intros H. vm_compute in H. discriminate H. }
  split; [exact Hbk|]. split; [exact Hnd|]. split; [exact Hex|].
  destruct (backup_is_made_once (P:=toy_pillow) cfg_default ["fotos"; "a.jpg"]
              ["fotos"; "a.backup.jpg"] w_backed Hbk Hnd)
    as (_ & Htaken & _).
  destruct (Htaken Hex) as (Hsame & _ & Hkept).
  split; [exact Hsame|exact Hkept].
Defined.

(** The in-place run with backup on the file that does not decode. *)
Lemma failure_after_backup_rename_witness :
  toy_open [] = None
  ∧ backup_path ["fotos"; "bad.png"] = Some ["fotos"; "bad.backup.png"]
  ∧ path_exists w_demo ["fotos"; "bad.backup.png"] = false
  ∧ files w_demo !! ["fotos"; "bad.png"] = Some corrupt
  ∧ fst (optimize_image (P:=toy_pillow) cfg_default ["fotos"; "bad.png"] None
           true w_demo) = Return false
  ∧ files (snd (optimize_image (P:=toy_pillow) cfg_default ["fotos"; "bad.png"]
                  None true w_demo)) !! ["fotos"; "bad.png"] = None
  ∧ files (snd (optimize_image (P:=toy_pillow) cfg_default ["fotos"; "bad.png"]
                  None true w_demo)) !! ["fotos"; "bad.backup.png"]
    = Some corrupt.
Proof.
  split; [by_computation|]. split; [by_computation|]. split; [by_computation|].
  split; [by_computation|]. split; [by_computation|].
  apply (failure_after_backup_rename (P:=toy_pillow) cfg_default
           ["fotos"; "bad.png"] ["fotos"; "bad.backup.png"] corrupt w_demo);
    by_computation.
Defined.

(** 3000 by 2000 in a box of 1200 by 1200. *)
Lemma resize_step_fits_box_witness :
  0 < width img_3000x2000 ∧ 0 < height img_3000x2000
  ∧ 0 < max_width cfg_1200 ∧ 0 < max_height cfg_1200
  ∧ ¬ (width img_3000x2000 ≤ max_width cfg_1200
       ∧ height img_3000x2000 ≤ max_height cfg_1200)
  ∧ ∃ i', resize_step (P:=toy_pillow) cfg_1200 img_3000x2000 w_demo
          = (Return i', w_demo)
      ∧ 1 ≤ width i' ≤ max_width cfg_1200
      ∧ 1 ≤ height i' ≤ max_height cfg_1200.
Proof.
  assert (¬ (width img_3000x2000 ≤ max_width cfg_1200
             ∧ height img_3000x2000 ≤ max_height cfg_1200)) as Hfit.
  { intros [H _]. apply H. reflexivity. }
  split; [reflexivity|]. split; [reflexivity|]. split; [reflexivity|].
  split; [reflexivity|]. split; [exact Hfit|].
  destruct (resize_step_fits_box (P:=toy_pillow) cfg_1200 img_3000x2000 w_demo
              eq_refl eq_refl eq_refl eq_refl) as [_ Hresize].
  destruct (Hresize Hfit) as (i' & Hi & _ & Hw & Hh & _).
  exists i'. split; [exact Hi|]. split; [exact Hw|exact Hh].
Defined.

(** C6 (the claim as stated fails): the command line takes a box whose
    width is 0 as it is; an image of 16 by 16 does not fit it, and the resize
    step raises instead of giving an image within the box, so the photo is
    not optimized. *)
Lemma resize_step_raises_on_box_without_width :
  let args := mkArgs "fotos" false 85 0 1080 None false None false in
  let self := effective_config args in
  let i : image unit := mkImage 16 16 "RGB" tt in
  main (P:=toy_pillow) args w_demo = run_optimizer (P:=toy_pillow) args w_demo
  ∧ (max_width self, max_height self) = (0, 1080)
  ∧ toy_open photo = Some i
  ∧ ¬ (width i ≤ max_width self ∧ height i ≤ max_height self)
  ∧ ¬ (∃ i' w', resize_step (P:=toy_pillow) self i w_demo = (Return i', w')
         ∧ width i' ≤ max_width self ∧ height i' ≤ max_height self)
  ∧ fst (optimize_image (P:=toy_pillow) self ["fotos"; "a.jpg"] None false
           w_demo) = Return false.
Proof.
  intros args self i.
  split; [by_computation|]. split; [by_computation|]. split; [by_computation|].
  split; [intros [H _]; apply H; reflexivity|].
  split; [|by_computation].
  intros (i' & w' & Hrun & _).
  assert (fst (resize_step (P:=toy_pillow) self i w_demo) = Raise ValueError)
    as Hraise by by_computation.
  rewrite Hrun in Hraise. discriminate Hraise.
Qed.

(** The default quality 85, and the quality 0. *)
Lemma quality_is_validated_witness :
  (1 ≤ arg_quality default_args ≤ 100
   ∧ main (P:=toy_pillow) default_args w_demo
     = run_optimizer (P:=toy_pillow) default_args w_demo)
  ∧ (arg_quality (mkArgs "fotos" false 0 1920 1080 None false None false) < 1
     ∧ fst (main (P:=toy_pillow)
              (mkArgs "fotos" false 0 1920 1080 None false None false) w_demo)
       = 1
     ∧ files (snd (main (P:=toy_pillow)
                     (mkArgs "fotos" false 0 1920 1080 None false None false)
                     w_demo))
       = files w_demo).
Proof.
  assert (1 ≤ arg_quality default_args ≤ 100) as Hin.
  { split; intros H; discriminate H. }
  assert (arg_quality (mkArgs "fotos" false 0 1920 1080 None false None false)
          < 1) as Hout by reflexivity.
  split.
  - split; [exact Hin|].
    exact (proj1 (proj1 (quality_is_validated (P:=toy_pillow) default_args
                           w_demo) Hin)).
  - split; [exact Hout|].
    destruct (proj2 (quality_is_validated (P:=toy_pillow)
                       (mkArgs "fotos" false 0 1920 1080 None false None false)
                       w_demo) (or_introl Hout)) as (Hexit & Hfiles & _).
    split; [exact Hexit|exact Hfiles].
Defined.

(** ** Further properties of the code *)

Section Further.

Context {P : Pillow}.

Ltac run_monad :=
  unfold mbind, M_bind, mret, M_ret, raise, get_world, modify, print,
    try_except, catch in *; simpl in *.

(** *** Suffixes of the paths the program derives *)

Lemma append_assoc (a b c : string) : (a +:+ b) +:+ c = a +:+ (b +:+ c).
Proof.
  induction a as [|x a IH]; [done|].
  change (String x ((a +:+ b) +:+ c) = String x (a +:+ (b +:+ c))).
  by rewrite IH.
Qed.

Lemma rsplit_dot_last s a b :
  Str.rsplit_dot s = Some (a, b) →
  ∃ t, b = String "." t ∧ Str.rsplit_dot t = None.
Proof.
  revert a b. induction s as [|c s IH]; intros a b; simpl; [done|].
  destruct (Str.rsplit_dot s) as [[a' b']|] eqn:Hs.
  - intros [= <- <-]. by eapply IH.
  - destruct (Ascii.eqb c ".") eqn:Hc; [|done].
    apply Ascii.eqb_eq in Hc as ->. intros [= <- <-]. by exists s.
Qed.

Lemma rsplit_dot_append_dot a t :
  Str.rsplit_dot t = None →
  Str.rsplit_dot (a +:+ String "." t) = Some (a, String "." t).
Proof.
  intros Ht. induction a as [|c a IH].
  - change (Str.rsplit_dot (String "." t) = Some (EmptyString, String "." t)).
    simpl. by rewrite Ht.
  - change (Str.rsplit_dot (String c (a +:+ String "." t))
            = Some (String c a, String "." t)).
    simpl. by rewrite IH.
Qed.

Lemma split_name_append_dot a t :
  Str.is_empty a = false → Str.is_empty t = false →
  Str.rsplit_dot t = None →
  PurePath.split_name (a +:+ String "." t) = (a, String "." t).
Proof.
  intros Ha Ht Hdot. unfold PurePath.split_name.
  rewrite rsplit_dot_append_dot by done. rewrite Ha. simpl.
  by destruct t.
Qed.

Lemma stem_not_empty p :
  Str.is_empty (PurePath.name p) = false →
  Str.is_empty (PurePath.stem p) = false.
Proof.
  unfold PurePath.stem, PurePath.split_name. intros Hn.
  destruct (Str.rsplit_dot (PurePath.name p)) as [[a b]|]; [|done].
  destruct (Str.is_empty a) eqn:Ha; simpl; [done|].
  by destruct (1 <? String.length b)%nat.
Qed.

Lemma name_snoc_dot l a t :
  Str.is_empty a = false →
  PurePath.name (l ++ [a +:+ String "." t]) = a +:+ String "." t.
Proof.
  intros Ha. unfold PurePath.name. rewrite last_snoc.
  destruct a as [|c a]; [done|]. destruct a; simpl;
    by destruct (Ascii.eqb c "/").
Qed.

(** The suffix of a path whose suffix was replaced by ".jpg". *)
Lemma with_suffix_jpg_suffix p q :
  PurePath.with_suffix p ".jpg" = Some q →
  PurePath.suffix q = ".jpg" ∧ PurePath.stem q = PurePath.stem p.
Proof.
  intros [Hn ->]%with_suffix_eq.
  pose proof (stem_not_empty p Hn) as Hs.
  assert (PurePath.split_name
            (PurePath.name (PurePath.parent p ++ [PurePath.stem p +:+ ".jpg"]))
          = (PurePath.stem p, ".jpg")) as Hsplit.
  { change (PurePath.stem p +:+ ".jpg")
      with (PurePath.stem p +:+ String "." "jpg").
    rewrite (name_snoc_dot _ _ _ Hs).
    by rewrite (split_name_append_dot _ "jpg" Hs eq_refl eq_refl). }
  split.
  - change (snd (PurePath.split_name (PurePath.name
              (PurePath.parent p ++ [PurePath.stem p +:+ ".jpg"]))) = ".jpg").
    by rewrite Hsplit.
  - change (fst (PurePath.split_name (PurePath.name
              (PurePath.parent p ++ [PurePath.stem p +:+ ".jpg"])))
            = PurePath.stem p).
    by rewrite Hsplit.
Qed.

(** A path with a suffix and its backup path have the same suffix. *)
Lemma backup_path_suffix p bk :
  backup_path p = Some bk →
  Str.is_empty (PurePath.suffix p) = false →
  PurePath.suffix bk = PurePath.suffix p.
Proof.
  intros [Hn ->]%with_suffix_eq Hsuf.
  unfold PurePath.suffix at 1.
  assert (∃ a t, PurePath.stem p = a ∧ PurePath.suffix p = String "." t
                 ∧ Str.is_empty a = false ∧ Str.is_empty t = false
                 ∧ Str.rsplit_dot t = None) as (a & t & Ha & Hb & Hae & Hte & Hdot).
  { unfold PurePath.stem, PurePath.suffix, PurePath.split_name in *.
    destruct (Str.rsplit_dot (PurePath.name p)) as [[a b]|] eqn:Hsplit; [|done].
    destruct (Str.is_empty a) eqn:Hae; simpl in *; [done|].
    destruct (1 <? String.length b)%nat eqn:Hlen; simpl in *; [|done].
    apply rsplit_dot_last in Hsplit as (t & -> & Hdot).
    exists a, t. repeat split; try done. by destruct t. }
  rewrite Ha, Hb.
  rewrite <- (append_assoc a ".backup" (String "." t)).
  assert (Str.is_empty (a +:+ ".backup") = false) as Hab by (by destruct a).
  rewrite (name_snoc_dot _ _ _ Hab).
  by rewrite (split_name_append_dot _ _ Hab Hte Hdot).
Qed.

Lemma same_suffix_same_format p q :
  PurePath.suffix p = PurePath.suffix q →
  is_image_file p = is_image_file q
  ∧ get_output_format p = get_output_format q.
Proof. unfold is_image_file, get_output_format. by intros ->. Qed.

Lemma image_file_has_suffix p :
  is_image_file p = true → Str.is_empty (PurePath.suffix p) = false.
Proof.
  unfold is_image_file. destruct (PurePath.suffix p); [|done].
  intros H. vm_compute in H. discriminate H.
Qed.

Lemma backup_path_image_file p bk :
  is_image_file p = true →
  backup_path p = Some bk →
  PurePath.suffix bk = PurePath.suffix p
  ∧ is_image_file bk = true
  ∧ get_output_format bk = get_output_format p.
Proof.
  intros Himg Hbk.
  pose proof (backup_path_suffix p bk Hbk (image_file_has_suffix p Himg)) as Hs.
  destruct (same_suffix_same_format bk p Hs) as [Hi Hf].
  split; [done|]. split; [by rewrite Hi|done].
Qed.

(** X1: the backup of a supported image has the suffix of the image: it is a
    supported image of the same output format, hence a candidate of every
    later run over the directory. *)
Theorem backup_is_a_candidate p bk :
  is_image_file p = true →
  backup_path p = Some bk →
  PurePath.suffix bk = PurePath.suffix p
  ∧ is_image_file bk = true
  ∧ get_output_format bk = get_output_format p.
Proof. exact (backup_path_image_file p bk). Qed.

Lemma save_target_image_file ip op out :
  is_image_file ip = true →
  PurePath.suffix op = PurePath.suffix ip →
  save_target ip op = Some out →
  is_image_file out = true
  ∧ get_output_format out = get_output_format ip.
Proof.
  intros Himg Hsuf Ht.
  destruct (same_suffix_same_format op ip Hsuf) as [Hi Hf].
  unfold save_target in Ht.
  destruct (get_output_format ip) eqn:Hfmt; simplify_eq;
    try (split; [by rewrite Hi|done]).
  case_bool_decide; simplify_eq; [split; [by rewrite Hi|done]|].
  apply with_suffix_jpg_suffix in Ht as [Hj _].
  unfold is_image_file, get_output_format. rewrite Hj. by vm_compute.
Qed.

(** X2: the file that [img.save] writes for a supported image carries an
    extension of the format it is encoded in, when the requested output has
    the suffix of the input, as in every batch run: it is a supported image
    whose output format is the one just used. *)
Theorem destination_keeps_format ip op out :
  is_image_file ip = true →
  PurePath.suffix op = PurePath.suffix ip →
  save_target ip op = Some out →
  is_image_file out = true
  ∧ get_output_format out = get_output_format ip.
Proof. exact (save_target_image_file ip op out). Qed.

(** *** What a batch run can change *)

Lemma name_app l rel : rel ≠ [] → PurePath.name (l ++ rel) = PurePath.name rel.
Proof.
  intros Hrel. unfold PurePath.name. rewrite last_app.
  destruct (last rel) eqn:Hlast; [done|].
  apply last_None in Hlast. done.
Qed.

Lemma below_relative d recursive f :
  below d recursive f = true →
  ∃ x rest, PurePath.relative_to f d = Some (x :: rest)
    ∧ (recursive = true ∨ rest = []).
Proof.
  unfold below. destruct (PurePath.relative_to f d) as [[|x rest]|]; try done.
  intros H. exists x, rest. split; [done|].
  apply orb_true_iff in H as [?|?%bool_decide_eq_true]; auto.
Qed.

Lemma image_files_of_elem d recursive w f :
  f ∈ image_files_of d recursive w →
  is_image_file f = true ∧ below d recursive f = true.
Proof.
  unfold image_files_of, glob. rewrite !list_elem_of_filter.
  intros (Hf & Hbelow & _). by apply andb_true_iff in Hf as [_ ?].
Qed.

(** A relation between the files before and after that every call of
    [optimize_image] on a candidate keeps is kept by the whole run. *)
Lemma optimize_directory_files_rel
    (R : gmap path content → gmap path content → Prop)
    self dp recursive b od w r w' :
  (∀ m, R m m) → (∀ m1 m2 m3, R m1 m2 → R m2 m3 → R m1 m3) →
  (∀ f op w1 r1 w2,
     is_image_file f = true →
     PurePath.name (default f op) = PurePath.name f →
     optimize_image self f op b w1 = (r1, w2) → R (files w1) (files w2)) →
  optimize_directory self dp recursive b od w = (r, w') →
  R (files w) (files w').
Proof.
  intros Hrefl Htrans Hstep.
  assert (∀ odp f w1 r1 w2,
            is_image_file f = true → below (PurePath.Path dp) recursive f = true →
            process_file self (PurePath.Path dp) b odp f w1 = (r1, w2) →
            R (files w1) (files w2)) as Hfile.
  { intros odp f w1 r1 w2 Himg Hbelow. rewrite process_file_unfold.
    apply below_relative in Hbelow as (x & rest & Hrel & _).
    assert (∀ op w3 r3 w4,
      PurePath.name (default f op) = PurePath.name f →
      files w3 = files w1 →
      match optimize_image self f op b w3 with
      | (Return true, w5) => (Return tt, w5)
      | (Return false, w5) => (Return tt, set_stats incr_skipped w5)
      | (Raise e, w5) => (Raise e, w5)
      end = (r3, w4) → R (files w1) (files w4)) as Hopt.
    { intros op w3 r3 w4 Hname Hfs.
      destruct (optimize_image self f op b w3) as [r5 w5] eqn:Ho.
      apply Hstep in Ho; [|done..]. rewrite Hfs in Ho.
      destruct r5 as [[]|]; intros; by simplify_eq. }
    destruct odp as [o|]; [|by apply Hopt].
    rewrite Hrel. destruct (mkdir_parents _ _) as [r3 w3] eqn:Hmk.
    apply mkdir_parents_cases in Hmk as (Hf3 & _ & _ & _).
    destruct r3 as [[]|]; [|intros; simplify_eq; rewrite Hf3; apply Hrefl].
    apply Hopt; [|done]. simpl. unfold PurePath.joinpath.
    rewrite (relative_to_app _ _ _ Hrel), !name_app; done. }
  assert (∀ odp fs w1 r1 w2,
            (∀ f, f ∈ fs → is_image_file f = true
                           ∧ below (PurePath.Path dp) recursive f = true) →
            for_each fs (process_file self (PurePath.Path dp) b odp) w1 = (r1, w2) →
            R (files w1) (files w2)) as Hloop.
  { intros odp fs. induction fs as [|f fs IH]; intros w1 r1 w2 Hfs; simpl.
    { run_monad. intros; simplify_eq. apply Hrefl. }
    unfold mbind, M_bind.
    destruct (process_file self _ b odp f w1) as [r3 w3] eqn:Hf.
    destruct (Hfs f) as [Himg Hbelow]; [by left|].
    apply Hfile in Hf; [|done..].
    destruct r3 as [[]|]; [|intros; by simplify_eq].
    intros Hrest. apply IH in Hrest; [by eapply Htrans|].
    intros f0 ?. apply Hfs. by right. }
  assert (∀ odp w1 r1 w2,
            run_loop self (PurePath.Path dp) recursive b odp w1 = (r1, w2) →
            R (files w1) (files w2)) as Hrun.
  { intros odp w1 r1 w2. unfold run_loop.
    destruct (image_files_of _ recursive w1) as [|f fs] eqn:Hfs;
      [intros; simplify_eq; apply Hrefl|].
    destruct (for_each _ _ _) as [r3 w3] eqn:Hl.
    apply Hloop in Hl.
    2:{ intros f0 Hin. rewrite <- Hfs in Hin. by apply image_files_of_elem in Hin. }
    destruct r3 as [[]|]; intros; by simplify_eq. }
  rewrite optimize_directory_unfold.
  destruct (path_exists _ _); [|intros; simplify_eq; apply Hrefl].
  destruct (truthy_str od); [|by apply Hrun].
  destruct (mkdir_parents _ _) as [r1 w1] eqn:Hmk.
  apply mkdir_parents_cases in Hmk as (Hf1 & _ & _ & _).
  destruct r1 as [[]|]; [|intros; simplify_eq; rewrite Hf1; apply Hrefl].
  intros Hr. apply Hrun in Hr. by rewrite Hf1 in Hr.
Qed.

(** X3: a batch run, in place or into an output root, with or without
    backups, leaves every file whose extension is not a supported one as it
    is: such a file is neither written, nor renamed, nor created. *)
Theorem unsupported_files_are_untouched self dp recursive b od w r w' q :
  optimize_directory self dp recursive b od w = (r, w') →
  is_image_file q = false →
  files w' !! q = files w !! q.
Proof.
  intros Hrun Hq. revert q Hq.
  eapply (optimize_directory_files_rel
            (λ m m', ∀ q, is_image_file q = false → m' !! q = m !! q));
    [done|intros m1 m2 m3 H1 H2 q Hq; by rewrite H2, H1| |exact Hrun].
  intros f op w1 r1 w2 Himg Hname Ho q Hq.
  assert (PurePath.suffix (default f op) = PurePath.suffix f) as Hsuf
    by (unfold PurePath.suffix; by rewrite Hname).
  apply optimize_image_files in Ho as (r0 & w0 & Hb & _ & Hf).
  apply backup_step_cases in Hb
    as [(-> & -> & _)|[(e & -> & ->)|(bk & c & _ & Hop & Hbk & _ & Hc & -> & ->)]].
  - destruct Hf as [->|(out & c' & Ht & -> & _)]; [done|].
    apply save_target_image_file in Ht as [Hout _]; [|done..].
    rewrite lookup_insert_ne; [done|]. intros ->. congruence.
  - by destruct Hf as [-> _].
  - destruct (backup_path_image_file f bk Himg Hbk) as (Hbs & Hbi & _).
    assert (files (set_files (λ fs, <[bk:=c]> (delete f fs)) w1) !! q
            = files w1 !! q) as Hren.
    { simpl. rewrite lookup_insert_ne by (intros ->; congruence).
      rewrite lookup_delete_ne by (intros ->; congruence). done. }
    destruct Hf as [->|(out & c' & Ht & -> & _)]; [done|].
    apply save_target_image_file in Ht as [Hout _]; [|done|congruence].
    rewrite lookup_insert_ne by (intros ->; congruence). done.
Qed.

(** X4: without [backup] a batch run removes no file: every path that holds
    a file before the run holds one after it. *)
Theorem no_file_is_removed self dp recursive od w r w' q :
  optimize_directory self dp recursive false od w = (r, w') →
  is_Some (files w !! q) → is_Some (files w' !! q).
Proof.
  intros Hrun. revert q.
  eapply (optimize_directory_files_rel
            (λ m m', ∀ q, is_Some (m !! q) → is_Some (m' !! q)));
    [done|intros m1 m2 m3 H1 H2 q Hq; by apply H2, H1| |exact Hrun].
  intros f op w1 r1 w2 _ _ Ho q Hq.
  apply optimize_image_files in Ho as (r0 & w0 & Hb & _ & Hf).
  unfold backup_step in Hb. simpl in Hb. injection Hb as <- <-.
  destruct Hf as [->|(out & c' & _ & -> & _)]; [done|].
  destruct (decide (out = q)) as [->|];
    [by rewrite lookup_insert_eq|by rewrite lookup_insert_ne].
Qed.

(** *** How a batch run ends *)






Lemma optimize_directory_return self dp recursive b od w ok w' :
  optimize_directory self dp recursive b od w = (Return ok, w') →
  (ok = true ↔ path_exists w (PurePath.Path dp) = true
               ∧ discovered dp recursive od w ≠ [])
  ∧ (ok = false → files w' = files w ∧ self_stats w' = self_stats w).
Proof.
  rewrite optimize_directory_unfold. unfold discovered, discovery_world.
  assert (∀ odp w1,
            files w1 = files w → self_stats w1 = self_stats w →
            run_loop self (PurePath.Path dp) recursive b odp w1 = (Return ok, w') →
            (ok = true ↔ true = true
                         ∧ image_files_of (PurePath.Path dp) recursive w1 ≠ [])
            ∧ (ok = false → files w' = files w ∧ self_stats w' = self_stats w))
    as Hrun.
  { intros odp w1 Hf Hs. unfold run_loop.
    destruct (image_files_of _ recursive w1) as [|f fs] eqn:Hfs.
    - intros [= <- <-]. simpl. split; [|done]. split; [done|]. by intros [_ ?].
    - destruct (for_each _ _ _) as [[[]|e1] w2]; [|done].
      intros [= <- <-]. split; [|done]. done. }
  destruct (path_exists _ _).
  - destruct (truthy_str od); [|by apply Hrun].
    destruct (mkdir_parents _ _) as [r1 w1] eqn:Hmk. simpl.
    apply mkdir_parents_cases in Hmk as (Hf & Hs & _ & [->|(e & -> & ->)]);
      [by apply Hrun|done].
  - intros [= <- <-]. simpl. split; [|done]. split; [done|]. by intros [? _].
Qed.

(** X6: a batch run returns True exactly when the directory exists and holds
    at least one candidate, whatever happens to the candidates; when it
    returns False, no file and no counter has changed. *)
Theorem batch_return_value self dp recursive b od w ok w' :
  optimize_directory self dp recursive b od w = (Return ok, w') →
  (ok = true ↔ path_exists w (PurePath.Path dp) = true
               ∧ discovered dp recursive od w ≠ [])
  ∧ (ok = false → files w' = files w ∧ self_stats w' = self_stats w).
Proof. exact (optimize_directory_return self dp recursive b od w ok w'). Qed.


(** *** A file that is processed *)

Lemma resize_step_any_world self i w1 w2 :
  fst (resize_step self i w1) = fst (resize_step self i w2).
Proof.
  unfold resize_step, thumbnail. run_monad. by repeat case_match.
Qed.

Lemma save_settings_any_world self f p w1 w2 :
  fst (save_settings self f p w1) = fst (save_settings self f p w2).
Proof.
  unfold save_settings. run_monad. by repeat case_match.
Qed.

(** The [try] body that ends well has decoded the file, prepared and
    resized the image, and written its encoding to the destination. *)
Lemma optimize_body_success self ip op w w' :
  optimize_body self ip op w = (Return true, w') →
  ∃ c i i2 kw out c',
    files w !! ip = Some c
    ∧ Image_open c = Some i
    ∧ fst (resize_step self (prepare_image (get_output_format ip) i) w)
      = Return i2
    ∧ fst (save_settings self (get_output_format ip) op w) = Return (kw, out)
    ∧ save_target ip op = Some out
    ∧ img_encode kw (exif_transpose i2) = Encoded c'
    ∧ files w' = <[out := c']> (files w)
    ∧ stdout w'
      = stdout w ++ [LineOk (PurePath.name ip) (Z.of_nat (length c))
                       (Z.of_nat (length c'))
                       (reduction_value (Z.of_nat (length c))
                          (Z.of_nat (length c')))].
Proof.
  unfold optimize_body, getsize, open_image, img_save, reduction_percent.
  run_monad. intros H.
  destruct (files w !! ip) as [c|] eqn:Hc; [|done]. simpl in H.
  rewrite Hc in H. destruct (Image_open c) as [i|] eqn:Hi; [|done].
  fold (prepare_image (get_output_format ip) i) in H.
  destruct (resize_step _ _ _) as [[i2|] w2] eqn:Hr; [|done].
  pose proof (resize_step_world _ _ _ _ _ Hr) as ->.
  destruct (save_settings _ _ _ _) as [[[kw out]|] w3] eqn:Hs; [|done].
  pose proof (save_settings_target _ _ _ _ _ _ _ Hs) as Ht.
  pose proof (save_settings_world _ _ _ _ _ _ Hs) as ->.
  case_bool_decide; [done|].
  destruct (img_encode kw (exif_transpose i2)) as [c'|] eqn:He;
    [|by destruct (is_file _ _)].
  simpl in H. rewrite lookup_insert_eq in H.
  destruct (Z.of_nat (length c) =? 0); [done|]. simpl in H.
  injection H as <-.
  exists c, i, i2, kw, out, c'. simpl.
  split; [done|]. split; [done|].
  split.
  { etrans; [apply (resize_step_any_world _ _ _
                      (set_stats (add_original (Z.of_nat (length c))) w))|].
    by rewrite Hr. }
  split.
  { etrans; [apply (save_settings_any_world _ _ _ _
                      (set_stats (add_original (Z.of_nat (length c))) w))|].
    by rewrite Hs. }
  done.
Qed.

Lemma optimize_image_success self p op b w w' :
  optimize_image self p op b w = (Return true, w') →
  ∃ ip c i i2 kw out c',
    (ip = p
     ∨ (backup_path p = Some ip ∧ path_exists w ip = false
        ∧ b = true ∧ default p op = p))
    ∧ files w !! p = Some c
    ∧ Image_open c = Some i
    ∧ fst (resize_step self (prepare_image (get_output_format ip) i) w)
      = Return i2
    ∧ fst (save_settings self (get_output_format ip) (default p op) w)
      = Return (kw, out)
    ∧ save_target ip (default p op) = Some out
    ∧ img_encode kw (exif_transpose i2) = Encoded c'
    ∧ files w' = <[out := c']> (files (snd (backup_step p (default p op) b w)))
    ∧ fst (backup_step p (default p op) b w) = Return ip
    ∧ ∃ l, stdout w' = stdout w ++ [l].
Proof.
  rewrite optimize_image_unfold.
  destruct (backup_step _ _ _ _) as [r1 w1] eqn:Hb. simpl.
  destruct r1 as [ip|e]; [|by rewrite except_handler_eq].
  destruct (optimize_body _ _ _ _) as [[ok|e] w2] eqn:Hbody;
    [|by rewrite except_handler_eq].
  intros [= -> ->].
  apply optimize_body_success in Hbody
    as (c & i & i2 & kw & out & c' & Hc & Hi & Hr & Hs & Ht & He & Hf & Ho).
  exists ip, c, i, i2, kw, out, c'.
  apply backup_step_cases in Hb
    as [([= ->] & -> & _)|[(e & ? & _)|(bk & c0 & -> & Hop & Hbk & Hex & Hc0 & [= ->] & ->)]];
    [|done|].
  - repeat (split; [by eauto|]). by eauto.
  - simpl in Hc. rewrite lookup_insert_eq in Hc. injection Hc as ->.
    split; [right; by rewrite Hop|].
    split; [done|]. split; [done|].
    split; [by rewrite (resize_step_any_world _ _ w
                          (set_files (λ fs, <[bk:=c]> (delete p fs)) w))|].
    split; [by rewrite (save_settings_any_world _ _ _ w
                          (set_files (λ fs, <[bk:=c]> (delete p fs)) w))|].
    repeat (split; [done|]). by eauto.
Qed.

(** X8: when [optimize_image] returns True, the bytes at the destination are
    the encoding, with the options of the output format, of the image that
    was decoded from the bytes of the file, put on white when the format is
    JPEG and the mode has transparency, fitted into the box and turned by its
    EXIF orientation. *)
Theorem success_writes_the_encoded_image self p op b w w' :
  optimize_image self p op b w = (Return true, w') →
  ∃ ip c i i2 kw out c',
    (ip = p ∨ backup_path p = Some ip)
    ∧ files w !! p = Some c
    ∧ Image_open c = Some i
    ∧ fst (resize_step self (prepare_image (get_output_format ip) i) w)
      = Return i2
    ∧ fst (save_settings self (get_output_format ip) (default p op) w)
      = Return (kw, out)
    ∧ img_encode kw (exif_transpose i2) = Encoded c'
    ∧ files w' !! out = Some c'.
Proof.
  intros (ip & c & i & i2 & kw & out & c' & Hip & Hc & Hi & Hr & Hs & _ & He
          & Hf & _)%optimize_image_success.
  exists ip, c, i, i2, kw, out, c'.
  split; [destruct Hip as [?|(? & _)]; by auto|].
  repeat (split; [done|]). by rewrite Hf, lookup_insert_eq.
Qed.

Ltac concrete_elem H :=
  apply list_elem_of_In in H; simpl in H;
  repeat (destruct H as [H|H]; [try discriminate H|]); try done.

(** X9: an in-place call without backup that succeeds changes one file.  For
    a JPEG, PNG or WEBP file it is the file itself, which is overwritten; for
    a BMP or TIFF file it is the file of the same stem with the extension
    ".jpg", and the original stays beside it with its bytes. *)
Theorem in_place_overwrites_or_adds self p w w' :
  optimize_image self p None false w = (Return true, w') →
  ∃ out c', files w' = <[out := c']> (files w)
    ∧ (Str.lower (PurePath.suffix p) ∈ [".jpg"; ".jpeg"; ".png"; ".webp"] →
       out = p)
    ∧ (Str.lower (PurePath.suffix p) ∈ [".bmp"; ".tiff"] →
       out ≠ p
       ∧ out = PurePath.parent p ++ [PurePath.stem p +:+ ".jpg"]
       ∧ files w' !! p = files w !! p).
Proof.
  intros (ip & c & i & i2 & kw & out & c' & Hip & _ & _ & _ & _ & Ht & _ & Hf
          & _)%optimize_image_success.
  destruct Hip as [->|(_ & _ & [=] & _)]. simpl in *.
  exists out, c'. split; [done|].
  unfold save_target, get_output_format in Ht. split.
  - intros Hin.
    concrete_elem Hin; rewrite <- Hin in Ht; vm_compute in Ht; congruence.
  - intros Hin.
    assert (PurePath.with_suffix p ".jpg" = Some out) as Hj
      by (concrete_elem Hin; rewrite <- Hin in Ht; vm_compute in Ht; exact Ht).
    assert (out ≠ p) as Hne.
    { intros ->. apply with_suffix_jpg_suffix in Hj as [Hj _].
      rewrite Hj in Hin. concrete_elem Hin. }
    split; [done|]. split; [by apply with_suffix_eq in Hj as [_ ?]|].
    by rewrite Hf, lookup_insert_ne.
Qed.

(** X10: an in-place call with backup that finds the backup path free and a
    file to rename leaves the bytes of the original at the backup path,
    whether the call then succeeds or fails; when it succeeds, the optimized
    file is at the destination and differs from the backup path. *)
Theorem backup_holds_the_original self p bk c w r w' :
  backup_path p = Some bk →
  path_exists w bk = false →
  files w !! p = Some c →
  optimize_image self p None true w = (r, w') →
  files w' !! bk = Some c
  ∧ (r = Return true →
     ∃ out c', save_target bk p = Some out ∧ out ≠ bk
       ∧ files w' !! out = Some c').
Proof.
  intros Hbk Hex Hc Ho.
  pose proof (backup_file_after self p bk w Hbk) as (_ & Hfile & _ & _).
  rewrite Ho in Hfile. simpl in Hfile. rewrite Hex, Hc in Hfile.
  split; [done|]. intros ->.
  apply optimize_image_success in Ho
    as (ip & c0 & i & i2 & kw & out & c' & _ & _ & _ & _ & _ & Ht & _ & Hf
        & Hip & _).
  simpl in *.
  rewrite (backup_step_renames _ _ _ _ Hbk Hex Hc) in Hf, Hip. simpl in Hf, Hip.
  assert (ip = bk) as -> by congruence.
  exists out, c'. split; [done|].
  split; [intros ->; by eapply backup_path_not_target|].
  by rewrite Hf, lookup_insert_eq.
Qed.

(** *** The report *)

Lemma optimize_image_line self p op b w r w' :
  optimize_image self p op b w = (r, w') →
  ∃ ok l, r = Return ok
    ∧ stdout w' = stdout w ++ [l]
    ∧ line_of_file (PurePath.name (read_path p op b w)) ok l.
Proof.
  rewrite optimize_image_unfold. unfold read_path.
  destruct (backup_step _ _ _ _) as [r1 w1] eqn:Hb. simpl.
  assert (stdout w1 = stdout w) as Hout.
  { apply backup_step_cases in Hb
      as [(_&->&_)|[(?&_&->)|(?&?&_&_&_&_&_&_&->)]]; done. }
  destruct r1 as [ip|e].
  - destruct (optimize_body _ _ _ _) as [r2 w2] eqn:Hbody.
    apply optimize_body_outcome in Hbody.
    destruct Hbody; rewrite ?except_handler_eq; intros [= <- <-]; simpl;
      rewrite Hout; eexists _, _; (split; [done|]); (split; [done|]);
      simpl; by eauto.
  - rewrite except_handler_eq. intros [= <- <-]. simpl. rewrite Hout.
    eexists _, _. split; [done|]. split; [done|]. simpl. by eauto.
Qed.

(** X11: every call of [optimize_image] prints exactly one line, a result
    line when it returns True and an error line when it returns False.  The
    line names the file that was read: the given path, or, when the call has
    just renamed the original to its backup, the backup. *)
Theorem one_line_per_file self p op b w r w' :
  optimize_image self p op b w = (r, w') →
  (∃ ok l, r = Return ok
     ∧ stdout w' = stdout w ++ [l]
     ∧ line_of_file (PurePath.name (read_path p op b w)) ok l)
  ∧ (b = false → read_path p op b w = p)
  ∧ (∀ bk, b = true → default p op = p → backup_path p = Some bk →
       path_exists w bk = false → is_Some (files w !! p) →
       read_path p op b w = bk ∧ bk ≠ p).
Proof.
  intros Ho. split; [|split].
  - by eapply optimize_image_line.
  - intros ->. done.
  - intros bk -> Hop Hbk Hex [c Hc]. unfold read_path. rewrite Hop.
    rewrite (backup_step_renames _ _ _ _ Hbk Hex Hc). simpl.
    split; [done|]. by apply backup_path_fresh.
Qed.

(** *** The resize step, twice *)

(** X12: the resize step is idempotent: an image that comes out of it goes
    through it unchanged, so a second run over optimized files resizes
    nothing.  Images and boxes have positive sides. *)
Theorem resize_step_idempotent self i w i' w' :
  0 < width i → 0 < height i → 0 < max_width self → 0 < max_height self →
  resize_step self i w = (Return i', w') →
  resize_step self i' w' = (Return i', w').
Proof.
  intros HW HH Hx Hy. unfold resize_step.
  destruct ((max_width self <? width i) || (max_height self <? height i))%bool
    eqn:Hbig.
  - assert (¬ (width i ≤ max_width self ∧ height i ≤ max_height self)) as Hfit
      by (apply orb_true_iff in Hbig; lia).
    destruct (thumbnail_size_fits _ _ _ _ HW HH Hx Hy Hfit)
      as (x' & y' & Hsize & Hx' & Hy' & _).
    unfold thumbnail. rewrite Hsize.
    destruct ((x' =? width i) && (y' =? height i))%bool eqn:Hsame.
    + apply andb_true_iff in Hsame as [?%Z.eqb_eq ?%Z.eqb_eq]. lia.
    + replace ((x' <=? 0) || (y' <=? 0))%bool with false
        by (symmetry; apply orb_false_iff; lia).
      intros [= <- <-]. simpl.
      replace (max_width self <? x') with false by lia.
      replace (max_height self <? y') with false by lia. done.
  - intros [= <- <-]. by rewrite Hbig.
Qed.

(** *** Sizes for reading *)

(** X13: for a size of magnitude up to 2^53, where the floats of the loop
    are exact, [format_size] shows a size below 1024, a negative one
    included, in bytes as it is, and a larger one divided by the largest
    power of 1024 that does not exceed it, up to the fourth: from 1024^4 on
    the unit stays TB, and from 1024^5 on the number shown is 1024 or
    more. *)
Theorem format_size_units n :
  (- 2 ^ 53 ≤ n < 1024 → format_size n = Some (inject_Z n, "B"))
  ∧ (1024 ≤ n < 1024 ^ 2 →
     ∃ v, format_size n = Some (v, "KB")
       ∧ (v * inject_Z 1024 == inject_Z n)%Q)
  ∧ (1024 ^ 2 ≤ n < 1024 ^ 3 →
     ∃ v, format_size n = Some (v, "MB")
       ∧ (v * inject_Z (1024 ^ 2) == inject_Z n)%Q)
  ∧ (1024 ^ 3 ≤ n < 1024 ^ 4 →
     ∃ v, format_size n = Some (v, "GB")
       ∧ (v * inject_Z (1024 ^ 3) == inject_Z n)%Q)
  ∧ (1024 ^ 4 ≤ n ≤ 2 ^ 53 →
     ∃ v, format_size n = Some (v, "TB")
       ∧ (v * inject_Z (1024 ^ 4) == inject_Z n)%Q
       ∧ (1024 ^ 5 ≤ n → (inject_Z 1024 <= v)%Q)).
Proof.
  assert (∀ m, - 2 ^ 53 ≤ m ≤ 2 ^ 53 →
            format_size m
            = Some (format_size_loop ["B"; "KB"; "MB"; "GB"] (inject_Z m)))
    as Hexact.
  { intros m Hm. unfold format_size, float_is_exact.
    replace (Z.abs m <=? 2 ^ 53) with true by lia. done. }
  repeat split; intros Hn; rewrite Hexact by lia; simpl;
    repeat match goal with
    | |- context [Qle_bool ?a ?b] =>
        let H := fresh "H" in
        destruct (Qle_bool a b) eqn:H;
        [apply Qle_bool_iff in H
        |assert (¬ (a <= b)%Q) by (rewrite <- Qle_bool_iff; congruence);
         clear H];
        simpl
    end;
    clear Hexact;
    unfold Qle, Qeq, Qmult, Qdiv, Qinv, inject_Z in * |-; simpl in * |-;
    try lia; try reflexivity;
    (eexists; split; [reflexivity|];
     unfold Qle, Qeq, Qmult, Qdiv, Qinv, inject_Z; simpl; repeat split;
     intros; lia).
Qed.

(** *** The candidates *)

Lemma read_path_cases p op b w :
  read_path p op b w = p ∨ backup_path p = Some (read_path p op b w).
Proof.
  unfold read_path.
  destruct (backup_step _ _ _ _) as [r1 w1] eqn:Hb. simpl.
  apply backup_step_cases in Hb
    as [(-> & _)|[(e & -> & _)|(bk & c & _ & _ & Hbk & _ & _ & -> & _)]];
    by auto.
Qed.

Lemma process_file_line self d b odp f w w' :
  process_file self d b odp f w = (Return tt, w') →
  ∃ l, stdout w' = stdout w ++ [l] ∧ names_file f l.
Proof.
  rewrite process_file_unfold.
  assert (∀ op w1, stdout w1 = stdout w →
    match optimize_image self f op b w1 with
    | (Return true, w2) => (Return tt, w2)
    | (Return false, w2) => (Return tt, set_stats incr_skipped w2)
    | (Raise e, w2) => (Raise e, w2)
    end = (Return tt, w') →
    ∃ l, stdout w' = stdout w ++ [l] ∧ names_file f l) as Hopt.
  { intros op w1 Hout.
    destruct (optimize_image self f op b w1) as [r2 w2] eqn:Ho.
    apply optimize_image_line in Ho as (ok & l & -> & Hl & Hline).
    assert (names_file f l) as Hname.
    { exists ok. destruct (read_path_cases f op b w1) as [Heq|Hbk].
      - left. by rewrite <- Heq.
      - right. by eauto. }
    rewrite Hout in Hl.
    destruct ok; intros [= <-]; by eauto. }
  destruct odp as [o|]; [|by apply Hopt].
  destruct (PurePath.relative_to f d) as [rel|]; [|done].
  destruct (mkdir_parents _ _) as [r1 w1] eqn:Hmk.
  apply mkdir_parents_cases in Hmk as (_ & _ & Hout & _).
  destruct r1 as [[]|e]; [|done]. by apply Hopt.
Qed.

Lemma for_each_lines self d b odp fs w w' :
  for_each fs (process_file self d b odp) w = (Return tt, w') →
  ∃ ls, stdout w' = stdout w ++ ls ∧ Forall2 names_file fs ls.
Proof.
  revert w. induction fs as [|f fs IH]; intros w; simpl.
  { intros [= <-]. exists []. by rewrite app_nil_r. }
  unfold mbind, M_bind.
  destruct (process_file self d b odp f w) as [[[]|e] w1] eqn:Hf; [|done].
  apply process_file_line in Hf as (l & Hl & Hname).
  intros (ls & Hls & Hall)%IH. exists (l :: ls).
  split; [by rewrite Hls, Hl, <- app_assoc|by constructor].
Qed.

Lemma run_loop_lines self d recursive b odp w w' :
  run_loop self d recursive b odp w = (Return true, w') →
  ∃ ls sv,
    stdout w'
    = stdout w ++ [LineFound (length (image_files_of d recursive w)); LineRule]
        ++ ls ++ [LineSummary (self_stats w') sv]
    ∧ Forall2 names_file (image_files_of d recursive w) ls.
Proof.
  unfold run_loop.
  destruct (image_files_of d recursive w) as [|f fs] eqn:Hfs; [done|].
  destruct (for_each _ _ _) as [[[]|e] w2] eqn:Hloop; [|done].
  apply for_each_lines in Hloop as (ls & Hls & Hall).
  intros [= <-]. eexists ls, _. split; [|done].
  unfold print_summary. run_monad. rewrite Hls. simpl.
  rewrite <- !app_assoc. simpl. reflexivity.
Qed.

(** X14: a run that returns True reports the number of candidates, a rule,
    one result or error line for each candidate in the order of the listing,
    and the summary of its counters: [optimize_image] is called once for each
    candidate and for nothing else. *)
Theorem report_lists_the_candidates self dp recursive b od w w' :
  optimize_directory self dp recursive b od w = (Return true, w') →
  ∃ ls sv,
    stdout w'
    = stdout w ++ [LineFound (length (discovered dp recursive od w)); LineRule]
        ++ ls ++ [LineSummary (self_stats w') sv]
    ∧ Forall2 names_file (discovered dp recursive od w) ls.
Proof.
  rewrite optimize_directory_unfold. unfold discovered, discovery_world.
  destruct (path_exists _ _); [|done].
  destruct (truthy_str od).
  - destruct (mkdir_parents _ _) as [r1 w1] eqn:Hmk. simpl.
    apply mkdir_parents_cases in Hmk as (_ & _ & Hout & _).
    destruct r1 as [[]|e]; [|done].
    intros (ls & sv & Hls & Hall)%run_loop_lines.
    exists ls, sv. by rewrite <- Hout.
  - apply run_loop_lines.
Qed.

(** *** Backups and output roots *)

Lemma process_file_backup_unused self d o f w :
  o ≠ d →
  process_file self d true (Some o) f w = process_file self d false (Some o) f w.
Proof.
  intros Hod. rewrite !process_file_unfold.
  destruct (PurePath.relative_to f d) as [rel|] eqn:Hrel; [|done].
  destruct (mkdir_parents _ _) as [[[]|e] w1]; [|done].
  rewrite !optimize_image_unfold. simpl. unfold backup_step.
  rewrite bool_decide_eq_false_2; [done|].
  unfold PurePath.joinpath. intros Heq.
  rewrite (relative_to_app _ _ _ Hrel) in Heq. by apply app_inv_tail in Heq.
Qed.

(** X15: with a non-empty output root other than the source root, [backup]
    has no effect: the run with it is the run without it, and no backup file
    is made. *)
Theorem backup_is_unused_with_output_root self dp recursive ods w :
  Str.is_empty ods = false →
  PurePath.Path ods ≠ PurePath.Path dp →
  optimize_directory self dp recursive true (Some ods) w
  = optimize_directory self dp recursive false (Some ods) w.
Proof.
  intros Hne Hod. rewrite !optimize_directory_unfold.
  unfold truthy_str. rewrite Hne. simpl.
  destruct (path_exists _ _); [|done].
  destruct (mkdir_parents _ _) as [[[]|e] w1]; [|done].
  unfold run_loop.
  destruct (image_files_of _ recursive w1) as [|f fs]; [done|].
  generalize (f :: fs) (put_line LineRule (put_line (LineFound (length (f :: fs))) w1)).
  intros l w0.
  assert (for_each l (process_file self (PurePath.Path dp) true
                        (Some (PurePath.Path ods))) w0
          = for_each l (process_file self (PurePath.Path dp) false
                          (Some (PurePath.Path ods))) w0) as ->; [|done].
  revert w0. induction l as [|f0 l IH]; intros w0; simpl; [done|].
  unfold mbind, M_bind. rewrite process_file_backup_unused by done.
  destruct (process_file _ _ false _ f0 w0) as [[[]|] ?]; [apply IH|done].
Qed.

(** *** Mirrored output *)








(** *** A file that is not there *)

(** X16: a call of [optimize_image] on a path at which nothing exists,
    neither a file nor a directory, returns False after one more error is
    counted: no file changes and the size totals stay as they are. *)
Theorem missing_file_is_an_error self p op b w r w' :
  path_exists w p = false →
  optimize_image self p op b w = (r, w') →
  r = Return false
  ∧ files w' = files w
  ∧ self_stats w' = incr_errors (self_stats w).
Proof.
  intros Hex.
  assert (files w !! p = None) as Hnone.
  { unfold path_exists, is_file in Hex. apply orb_false_iff in Hex as [Hex _].
    apply bool_decide_eq_false in Hex.
    destruct (files w !! p); [by destruct Hex|done]. }
  rewrite optimize_image_unfold.
  destruct (backup_step _ _ _ _) as [r1 w1] eqn:Hb.
  apply backup_step_cases in Hb
    as [(-> & -> & _)|[(e & -> & ->)|(bk & c & _ & _ & _ & _ & Hc & _)]];
    [| |congruence].
  - destruct (optimize_body _ _ _ _) as [r2 w2] eqn:Hbody.
    apply optimize_body_outcome in Hbody.
    destruct Hbody; try congruence. rewrite except_handler_eq.
    by intros [= <- <-].
  - rewrite except_handler_eq. by intros [= <- <-].
Qed.

End Further.

(** ** The further properties on concrete runs *)

Lemma backup_is_a_candidate_witness :
  is_image_file ["fotos"; "a.jpg"] = true
  ∧ backup_path ["fotos"; "a.jpg"] = Some ["fotos"; "a.backup.jpg"]
  ∧ is_image_file ["fotos"; "a.backup.jpg"] = true.
Proof.
  assert (is_image_file ["fotos"; "a.jpg"] = true) as Himg by by_computation.
  assert (backup_path ["fotos"; "a.jpg"] = Some ["fotos"; "a.backup.jpg"])
    as Hbk by by_computation.
  split; [exact Himg|]. split; [exact Hbk|].
  exact (proj1 (proj2 (backup_is_a_candidate _ _ Himg Hbk))).
Defined.

Lemma destination_keeps_format_witness :
  is_image_file ["fotos"; "scan.bmp"] = true
  ∧ PurePath.suffix ["fotos"; "scan.bmp"] = PurePath.suffix ["fotos"; "scan.bmp"]
  ∧ save_target ["fotos"; "scan.bmp"] ["fotos"; "scan.bmp"]
    = Some ["fotos"; "scan.jpg"]
  ∧ is_image_file ["fotos"; "scan.jpg"] = true
  ∧ get_output_format ["fotos"; "scan.jpg"]
    = get_output_format ["fotos"; "scan.bmp"].
Proof.
  assert (is_image_file ["fotos"; "scan.bmp"] = true) as Himg by by_computation.
  assert (save_target ["fotos"; "scan.bmp"] ["fotos"; "scan.bmp"]
          = Some ["fotos"; "scan.jpg"]) as Ht by by_computation.
  split; [exact Himg|]. split; [reflexivity|]. split; [exact Ht|].
  exact (destination_keeps_format _ _ _ Himg eq_refl Ht).
Defined.

Lemma unsupported_files_are_untouched_witness :
  is_image_file ["fotos"; "notes.txt"] = false
  ∧ files (snd (optimize_directory (P:=toy_pillow) cfg_default "fotos" false
                  true None w_notes)) !! ["fotos"; "notes.txt"]
    = files w_notes !! ["fotos"; "notes.txt"].
Proof.
  assert (is_image_file ["fotos"; "notes.txt"] = false) as Himg
    by by_computation.
  split; [exact Himg|].
  exact (unsupported_files_are_untouched (P:=toy_pillow) cfg_default "fotos"
           false true None w_notes _ _ _ (surjective_pairing _) Himg).
Defined.

Lemma no_file_is_removed_witness :
  is_Some (files w_demo !! ["fotos"; "scan.bmp"])
  ∧ is_Some (files (snd (optimize_directory (P:=toy_pillow) cfg_default "fotos"
                           false false None w_demo)) !! ["fotos"; "scan.bmp"]).
Proof.
  assert (is_Some (files w_demo !! ["fotos"; "scan.bmp"])) as Hfile.
  { exists photo. by_computation. }
  split; [exact Hfile|].
  exact (no_file_is_removed (P:=toy_pillow) cfg_default "fotos" false None
           w_demo _ _ _ (surjective_pairing _) Hfile).
Defined.

(** An output root below a regular file: [mkdir] stops at the file. *)
Example output_root_below_a_file :
  fst (optimize_directory (P:=toy_pillow) cfg_default "fotos" false false
         (Some "out/deep") w_blocked) = Raise NotADirectoryError.
Proof. by_computation. Qed.


Lemma batch_return_value_witness :
  fst (optimize_directory (P:=toy_pillow) cfg_default "fotos" false false None
         w_demo) = Return true
  ∧ path_exists w_demo (PurePath.Path "fotos") = true
  ∧ discovered "fotos" false None w_demo ≠ [].
Proof.
  assert (optimize_directory (P:=toy_pillow) cfg_default "fotos" false false
            None w_demo
          = (Return true,
             snd (optimize_directory (P:=toy_pillow) cfg_default "fotos" false
                    false None w_demo))) as Hrun by by_computation.
  split; [by_computation|].
  exact (proj1 (proj1 (batch_return_value (P:=toy_pillow) _ _ _ _ _ _ _ _ Hrun))
           eq_refl).
Defined.


Lemma success_writes_the_encoded_image_witness :
  optimize_image (P:=toy_pillow) cfg_default ["fotos"; "a.jpg"] None false w_demo
  = (Return true,
     snd (optimize_image (P:=toy_pillow) cfg_default ["fotos"; "a.jpg"] None
            false w_demo))
  ∧ ∃ c i2 kw out c',
      files w_demo !! ["fotos"; "a.jpg"] = Some c
      ∧ toy_encode kw i2 = Encoded c'
      ∧ files (snd (optimize_image (P:=toy_pillow) cfg_default
                      ["fotos"; "a.jpg"] None false w_demo)) !! out = Some c'.
Proof.
  assert (optimize_image (P:=toy_pillow) cfg_default ["fotos"; "a.jpg"] None
            false w_demo
          = (Return true,
             snd (optimize_image (P:=toy_pillow) cfg_default ["fotos"; "a.jpg"]
                    None false w_demo))) as Hrun by by_computation.
  split; [exact Hrun|].
  destruct (success_writes_the_encoded_image (P:=toy_pillow) _ _ _ _ _ _ Hrun)
    as (ip & c & i & i2 & kw & out & c' & _ & Hc & _ & _ & _ & He & Hf).
  exists c, i2, kw, out, c'.
  split; [exact Hc|]. split; [exact He|exact Hf].
Defined.

Lemma in_place_overwrites_or_adds_witness :
  optimize_image (P:=toy_pillow) cfg_default ["fotos"; "scan.bmp"] None false
    w_demo
  = (Return true,
     snd (optimize_image (P:=toy_pillow) cfg_default ["fotos"; "scan.bmp"] None
            false w_demo))
  ∧ ∃ out c',
      files (snd (optimize_image (P:=toy_pillow) cfg_default
                    ["fotos"; "scan.bmp"] None false w_demo))
      = <[out := c']> (files w_demo)
      ∧ out ≠ ["fotos"; "scan.bmp"].
Proof.
  assert (optimize_image (P:=toy_pillow) cfg_default ["fotos"; "scan.bmp"] None
            false w_demo
          = (Return true,
             snd (optimize_image (P:=toy_pillow) cfg_default
                    ["fotos"; "scan.bmp"] None false w_demo))) as Hrun
    by by_computation.
  split; [exact Hrun|].
  destruct (in_place_overwrites_or_adds (P:=toy_pillow) _ _ _ _ Hrun)
    as (out & c' & Hf & _ & Hbmp).
  exists out, c'. split; [exact Hf|].
  refine (proj1 (Hbmp _)). vm_compute. apply list_elem_of_here.
Defined.

Lemma backup_holds_the_original_witness :
  backup_path ["fotos"; "a.jpg"] = Some ["fotos"; "a.backup.jpg"]
  ∧ path_exists w_demo ["fotos"; "a.backup.jpg"] = false
  ∧ files w_demo !! ["fotos"; "a.jpg"] = Some photo
  ∧ files (snd (optimize_image (P:=toy_pillow) cfg_default ["fotos"; "a.jpg"]
                  None true w_demo)) !! ["fotos"; "a.backup.jpg"]
    = Some photo.
Proof.
  split; [by_computation|]. split; [by_computation|]. split; [by_computation|].
  refine (proj1 (backup_holds_the_original (P:=toy_pillow) cfg_default
                   ["fotos"; "a.jpg"] ["fotos"; "a.backup.jpg"] photo w_demo
                   _ _ _ _ _ (surjective_pairing _))); by_computation.
Defined.

Lemma one_line_per_file_witness :
  ∃ ok l,
    fst (optimize_image (P:=toy_pillow) cfg_default ["fotos"; "bad.png"] None
           true w_demo) = Return ok
    ∧ stdout (snd (optimize_image (P:=toy_pillow) cfg_default
                     ["fotos"; "bad.png"] None true w_demo))
      = stdout w_demo ++ [l]
    ∧ line_of_file
        (PurePath.name (read_path ["fotos"; "bad.png"] None true w_demo)) ok l.
Proof.
  exact (proj1 (one_line_per_file (P:=toy_pillow) cfg_default
                  ["fotos"; "bad.png"] None true w_demo _ _
                  (surjective_pairing _))).
Defined.

Lemma resize_step_idempotent_witness :
  0 < width img_3000x2000 ∧ 0 < height img_3000x2000
  ∧ 0 < max_width cfg_1200 ∧ 0 < max_height cfg_1200
  ∧ resize_step (P:=toy_pillow) cfg_1200 img_3000x2000 w_demo
    = (Return (mkImage 1200 800 "RGB" tt), w_demo)
  ∧ resize_step (P:=toy_pillow) cfg_1200 (mkImage 1200 800 "RGB" tt) w_demo
    = (Return (mkImage 1200 800 "RGB" tt), w_demo).
Proof.
  assert (resize_step (P:=toy_pillow) cfg_1200 img_3000x2000 w_demo
          = (Return (mkImage 1200 800 "RGB" tt), w_demo)) as Hrun
    by by_computation.
  split; [reflexivity|]. split; [reflexivity|]. split; [reflexivity|].
  split; [reflexivity|]. split; [exact Hrun|].
  exact (resize_step_idempotent (P:=toy_pillow) cfg_1200 img_3000x2000 w_demo
           _ _ eq_refl eq_refl eq_refl eq_refl Hrun).
Defined.

Lemma backup_is_unused_with_output_root_witness :
  Str.is_empty "out" = false
  ∧ PurePath.Path "out" ≠ PurePath.Path "fotos"
  ∧ optimize_directory (P:=toy_pillow) cfg_default "fotos" false true
      (Some "out") w_demo
    = optimize_directory (P:=toy_pillow) cfg_default "fotos" false false
        (Some "out") w_demo.
Proof.
  assert (PurePath.Path "out" ≠ PurePath.Path "fotos") as Hne.
  { vm_compute. intros H. discriminate H. }
  split; [reflexivity|]. split; [exact Hne|].
  exact (backup_is_unused_with_output_root (P:=toy_pillow) cfg_default "fotos"
           false "out" w_demo eq_refl Hne).
Defined.

Lemma missing_file_is_an_error_witness :
  path_exists w_demo ["fotos"; "none.jpg"] = false
  ∧ fst (optimize_image (P:=toy_pillow) cfg_default ["fotos"; "none.jpg"] None
           true w_demo) = Return false
  ∧ files (snd (optimize_image (P:=toy_pillow) cfg_default ["fotos"; "none.jpg"]
                  None true w_demo)) = files w_demo.
Proof.
  assert (path_exists w_demo ["fotos"; "none.jpg"] = false) as Hnone
    by by_computation.
  split; [exact Hnone|].
  destruct (missing_file_is_an_error (P:=toy_pillow) cfg_default
              ["fotos"; "none.jpg"] None true w_demo _ _ Hnone
              (surjective_pairing _)) as (Hr & Hf & _).
  split; [exact Hr|exact Hf].
Defined.

(** The report of the run over "fotos". *)
Lemma report_lists_the_candidates_witness :
  optimize_directory (P:=toy_pillow) cfg_default "fotos" false false None w_demo
  = (Return true,
     snd (optimize_directory (P:=toy_pillow) cfg_default "fotos" false false
            None w_demo))
  ∧ ∃ ls, length ls = length (discovered "fotos" false None w_demo)
      ∧ ∃ sv, stdout (snd (optimize_directory (P:=toy_pillow) cfg_default
                             "fotos" false false None w_demo))
              = stdout w_demo
                ++ [LineFound (length (discovered "fotos" false None w_demo));
                    LineRule]
                ++ ls
                ++ [LineSummary
                      (self_stats (snd (optimize_directory (P:=toy_pillow)
                                          cfg_default "fotos" false false None
                                          w_demo))) sv].
Proof.
  assert (optimize_directory (P:=toy_pillow) cfg_default "fotos" false false
            None w_demo
          = (Return true,
             snd (optimize_directory (P:=toy_pillow) cfg_default "fotos" false
                    false None w_demo))) as Hrun by by_computation.
  split; [exact Hrun|].
  destruct (report_lists_the_candidates (P:=toy_pillow) cfg_default "fotos"
              false false None w_demo _ Hrun) as (ls & sv & Hout & Hall).
  exists ls. split; [symmetry; exact (Forall2_length _ _ _ Hall)|].
  exists sv. exact Hout.
Defined.

(** ** The mirrored output on concrete runs *)


